(** * pypls: a word-completion language server (main.go)

    A shallow embedding of [main.go]: the tokenizer [getWords], the sort-key
    helper [padStart], the cursor scan and the candidate loops of the
    [textDocument/completion] case, and the method switch [Handle] over the
    two process-wide maps [files] and [defaultCompletions].

    Go strings are byte strings ([string]); [for _, c := range s] walks the
    UTF-8 decoding of [s] and [string(c)] re-encodes a rune.  Integers of
    type [int64] are [Z] with the wrap-around written out ([int64]).  The
    maps are [gmap string _]; the order in which Go ranges over a map is not
    specified, so the candidate list is only ever described by membership. *)

From Stdlib Require Import ZArith String Ascii List Lia.
From stdpp Require Import base option list gmap strings.

Local Open Scope string_scope.
Local Open Scope Z_scope.

(** ** Runes and UTF-8, as Go's [unicode/utf8] and the [range] clause have them *)

Definition rune := Z.

Definition RuneError : rune := 0xFFFD.

Definition byteZ (b : ascii) : Z := Z.of_N (N_of_ascii b).

Definition byte_of (z : Z) : ascii := ascii_of_N (Z.to_N z).

(** [len(s)], a Go [int]. *)
Definition len (s : string) : Z := Z.of_nat (String.length s).

(** The table [first] of [unicode/utf8]: [0xF0] marks ASCII, [0xF1] an
    invalid lead byte; otherwise the low three bits are the size of the
    encoding and the high four bits index [acceptRanges]. *)
Definition first (b : Z) : Z :=
  if b <? 0x80 then 0xF0
  else if b <? 0xC2 then 0xF1
  else if b <? 0xE0 then 0x02
  else if b =? 0xE0 then 0x13
  else if b <? 0xED then 0x03
  else if b =? 0xED then 0x23
  else if b <? 0xF0 then 0x03
  else if b =? 0xF0 then 0x34
  else if b <? 0xF4 then 0x04
  else if b =? 0xF4 then 0x44
  else 0xF1.

Definition acceptRanges (i : Z) : Z * Z :=
  match i with
  | 0 => (0x80, 0xBF)
  | 1 => (0xA0, 0xBF)
  | 2 => (0x80, 0x9F)
  | 3 => (0x90, 0xBF)
  | 4 => (0x80, 0x8F)
  | _ => (0, 0)
  end.

(** [s[i]] for the first bytes of a string, [None] past the end. *)
Definition byte_at (s : string) (i : nat) : option Z :=
  byteZ <$> String.get i s.

(** [utf8.DecodeRuneInString]: the first rune of [s] and its width in bytes;
    [(RuneError, 1)] on any malformed or truncated encoding. *)
Definition DecodeRuneInString (s : string) : rune * nat :=
  match byte_at s 0 with
  | None => (RuneError, 0%nat)
  | Some s0 =>
    let x := first s0 in
    if 0xF0 <=? x then
      (if x =? 0xF0 then s0 else RuneError, 1%nat)
    else
      let sz := Z.land x 7 in
      let '(lo, hi) := acceptRanges (Z.shiftr x 4) in
      if len s <? sz then (RuneError, 1%nat)
      else
        match byte_at s 1 with
        | None => (RuneError, 1%nat)
        | Some s1 =>
          if (s1 <? lo) || (hi <? s1) then (RuneError, 1%nat)
          else if sz <=? 2 then
            (Z.lor (Z.shiftl (Z.land s0 0x1F) 6) (Z.land s1 0x3F), 2%nat)
          else
            match byte_at s 2 with
            | None => (RuneError, 1%nat)
            | Some s2 =>
              if (s2 <? 0x80) || (0xBF <? s2) then (RuneError, 1%nat)
              else if sz <=? 3 then
                (Z.lor (Z.lor (Z.shiftl (Z.land s0 0x0F) 12)
                              (Z.shiftl (Z.land s1 0x3F) 6))
                       (Z.land s2 0x3F), 3%nat)
              else
                match byte_at s 3 with
                | None => (RuneError, 1%nat)
                | Some s3 =>
                  if (s3 <? 0x80) || (0xBF <? s3) then (RuneError, 1%nat)
                  else
                    (Z.lor (Z.lor (Z.lor (Z.shiftl (Z.land s0 0x07) 18)
                                         (Z.shiftl (Z.land s1 0x3F) 12))
                                  (Z.shiftl (Z.land s2 0x3F) 6))
                           (Z.land s3 0x3F), 4%nat)
                end
            end
        end
  end.

(** The runes [for _, c := range s] yields, in order.  [skip] counts the
    bytes still covered by the rune decoded last. *)
Fixpoint range_from (skip : nat) (s : string) : list rune :=
  match s with
  | EmptyString => []
  | String _ rest =>
    match skip with
    | S k => range_from k rest
    | O => let '(c, width) := DecodeRuneInString s in
           c :: range_from (Nat.pred width) rest
    end
  end.

Definition range_string (s : string) : list rune := range_from 0 s.

(** The conversion [string(c)] of a rune: its UTF-8 encoding, and the
    encoding of [RuneError] for a surrogate or an out-of-range value. *)
Definition string_of_rune (c : rune) : string :=
  if (0 <=? c) && (c <=? 0x7F) then String (byte_of c) EmptyString
  else if (0 <=? c) && (c <=? 0x7FF) then
    String (byte_of (Z.lor 0xC0 (Z.shiftr c 6)))
   (String (byte_of (Z.lor 0x80 (Z.land c 0x3F))) EmptyString)
  else if (c <? 0) || (0x10FFFF <? c) || ((0xD800 <=? c) && (c <=? 0xDFFF)) then
    String (byte_of 0xEF) (String (byte_of 0xBF) (String (byte_of 0xBD) EmptyString))
  else if c <=? 0xFFFF then
    String (byte_of (Z.lor 0xE0 (Z.shiftr c 12)))
   (String (byte_of (Z.lor 0x80 (Z.land (Z.shiftr c 6) 0x3F)))
   (String (byte_of (Z.lor 0x80 (Z.land c 0x3F))) EmptyString))
  else
    String (byte_of (Z.lor 0xF0 (Z.shiftr c 18)))
   (String (byte_of (Z.lor 0x80 (Z.land (Z.shiftr c 12) 0x3F)))
   (String (byte_of (Z.lor 0x80 (Z.land (Z.shiftr c 6) 0x3F)))
   (String (byte_of (Z.lor 0x80 (Z.land c 0x3F))) EmptyString))).

(** ** Integers *)

(** Wrap-around of a mathematical integer into Go's [int64]. *)
Definition int64 (z : Z) : Z := (z + 2 ^ 63) mod 2 ^ 64 - 2 ^ 63.

Definition digit (d : Z) : ascii := byte_of (48 + d).

(** The digit loop of [strconv]: the decimal digits of [u], least
    significant first, pushed in front of [a].  An [int64] has at most 19
    digits, which is the fuel [FormatInt] gives it. *)
Fixpoint formatBits (fuel : nat) (u : Z) (a : string) : string :=
  let a' := String (digit (u mod 10)) a in
  match fuel with
  | O => a'
  | S f => if u <? 10 then a' else formatBits f (u / 10) a'
  end.

(** [strconv.FormatInt(i, 10)]. *)
Definition FormatInt (i : Z) : string :=
  if i <? 0 then String "-" (formatBits 19 (- i) EmptyString)
  else formatBits 19 i EmptyString.

(** Go's [<] on strings: byte-wise lexicographic order. *)
Fixpoint string_ltb (s t : string) : bool :=
  match s, t with
  | _, EmptyString => false
  | EmptyString, String _ _ => true
  | String a s', String b t' =>
    if byteZ a <? byteZ b then true
    else if byteZ a =? byteZ b then string_ltb s' t'
    else false
  end.

(** ** [padStart] *)

(** One test of the loop condition per unit of fuel. *)
Fixpoint padStart_loop (fuel : nat) (s pad : string) (length : Z) : string :=
  match fuel with
  | O => s
  | S f => if len s <? length then padStart_loop f (pad +:+ s) pad length else s
  end.

(** [padStart(s, pad, length)]: [length - len(s)] rounds are all the loop
    can make when [pad] is not empty ([padStart_exit] below); with an empty
    [pad] and a short [s] the Go loop does not end, and the only call in
    the program passes ["0"]. *)
Definition padStart (s pad : string) (length : Z) : string :=
  padStart_loop (Z.to_nat (length - len s)) s pad length.

(** ** The Unicode classes

    [unicode.IsLetter] and [unicode.IsDigit] consult the tables of Go's
    [unicode] package, which is not part of the repository.  They are taken
    as an interface that fixes them on the ASCII range, where Go documents
    the letters as [A-Z], [a-z] and the digits as [0-9]. *)

Definition ascii_letter (c : rune) : bool :=
  ((65 <=? c) && (c <=? 90)) || ((97 <=? c) && (c <=? 122)).

Definition ascii_digit (c : rune) : bool := (48 <=? c) && (c <=? 57).

Class UnicodeTables := {
  IsLetter : rune -> bool;
  IsDigit : rune -> bool;
  IsLetter_ascii : forall c, 0 <= c < 0x80 -> IsLetter c = ascii_letter c;
  IsDigit_ascii : forall c, 0 <= c < 0x80 -> IsDigit c = ascii_digit c
}.

(** The tables cut down to ASCII: every rune from [0x80] on is in neither
    class.  Used to run the program on ASCII texts. *)
Definition ascii_tables : UnicodeTables := {|
  IsLetter c := (0 <=? c) && (c <? 0x80) && ascii_letter c;
  IsDigit c := (0 <=? c) && (c <? 0x80) && ascii_digit c;
  IsLetter_ascii c H :=
    ltac:(abstract (destruct H as [H0 H1]; apply Z.leb_le in H0;
                    apply Z.ltb_lt in H1; now rewrite H0, H1));
  IsDigit_ascii c H :=
    ltac:(abstract (destruct H as [H0 H1]; apply Z.leb_le in H0;
                    apply Z.ltb_lt in H1; now rewrite H0, H1))
|}.

(** ** Data of the server *)

Record CompletionItem := {
  Label : string;
  Kind : Z;
  InsertText : string;
  InsertTextFmt : Z;
  SortText : string
}.

Record OpenFile := {
  uri : string;
  content : string;
  words : gmap string Z
}.

(** The two package-level variables. *)
Record Globals := {
  files : gmap string OpenFile;
  defaultCompletions : gmap string Z
}.

Record LogMessageParams := {
  Type_ : Z;
  Message : string
}.

(** A map index expression [m[k]]: the zero value when [k] is absent. *)
Definition index (m : gmap string Z) (k : string) : Z := default 0 (m !! k).

(** ** The JSON-RPC connection

    [jsonrpc2] and [encoding/json] are libraries.  A request carries its
    method, its id and its raw params; the raw params are represented by
    what [json.Unmarshal] makes of them at each of the four shapes the
    handler decodes into: the value, or the error it returns.  A missing
    field decodes to the zero value, so to the empty string, the empty
    slice or 0. *)

Inductive decoded (A : Type) :=
  | Decoded (a : A)
  | DecodeError (err : string).
Arguments Decoded {A} a.
Arguments DecodeError {A} err.

Record RawMessage := {
  textDocument_uri : decoded string;
  contentChanges_text : decoded (list string);
  textDocument_text : decoded string;
  position : decoded (Z * Z)
}.

Inductive ID :=
  | IDNum (n : Z)
  | IDStr (s : string).

Record Request := {
  Method : string;
  req_ID : ID;
  Params : option RawMessage
}.

Inductive Result :=
  | InitializeResult (triggerCharacters : list string)
  | NilResult
  | CompletionList (isIncomplete : bool) (items : list CompletionItem).

(** What the handler sends on the connection. *)
Inductive Event :=
  | Reply (id : ID) (result : Result)
  | ReplyWithError (id : ID) (code : Z) (message : string)
  | Notify (method : string) (params : LogMessageParams).

Definition CodeParseError : Z := -32700.
Definition CodeMethodNotFound : Z := -32601.

(** How a call of [Handle] ends: it returns, the process exits, or a
    run-time panic (nil dereference, index out of range) unwinds it. *)
Inductive Outcome :=
  | Returned (g : Globals) (out : list Event)
  | Exited (code : Z)
  | Panicked.

Definition log (message : string) : Event :=
  Notify "window/logMessage" {| Type_ := 4; Message := message |}.

(** [getURI]: [None] stands for the nil dereference of absent params. *)
Definition getURI (req : Request) : option (decoded string) :=
  match Params req with
  | None => None
  | Some raw =>
    Some match textDocument_uri raw with
         | DecodeError _ => DecodeError "Failed to unmarshal payload"
         | Decoded uri => Decoded uri
         end
  end.

(** [main]'s list of built-in words. *)
Definition defs : list string :=
  ["for"; "range"; "import"; "int"; "if"; "elif"; "else"; "in"; "open";
   "sort"; "sorted"; "def"; "print"; "continue"; "break"; "return"; "not";
   "del"; "eval"; "True"; "False"; "str"; "while"; "and"; "as"; "is"; "or";
   "try"; "except"; "finally"; "raise"; "assert"; "with"; "lambda"; "yield";
   "async"; "await"; "class"; "from"; "global"; "nonlocal"; "pass"; "None";
   "abs"; "all"; "any"; "ascii"; "bin"; "bool"; "breakpoint"; "bytearray";
   "bytes"; "callable"; "chr"; "classmethod"; "compile"; "complex";
   "delattr"; "dict"; "dir"; "divmod"; "enumerate"; "exec"; "filter";
   "float"; "format"; "frozenset"; "getattr"; "globals"; "hasattr"; "hash";
   "help"; "hex"; "id"; "input"; "isinstance"; "issubclass"; "iter"; "len";
   "list"; "locals"; "map"; "max"; "memoryview"; "min"; "next"; "object";
   "oct"; "pow"; "property"; "repr"; "reversed"; "round"; "set"; "setattr";
   "slice"; "staticmethod"; "sum"; "super"; "tuple"; "type"; "vars"; "zip";
   "__import__"].

(** The globals as [main] leaves them before the connection is served. *)
Definition main : Globals :=
  {| files := ∅;
     defaultCompletions := foldl (fun m d => <[d := 11]> m) ∅ defs |}.

Section Server.

Context {U : UnicodeTables}.

(** The test [c == '_' || unicode.IsLetter(c) || unicode.IsDigit(c)]. *)
Definition isWordRune (c : rune) : bool :=
  (c =? 95) || IsLetter c || IsDigit c.

(** ** [getWords] *)

(** [words[currentword] = words[currentword] + 1]. *)
Definition count (words : gmap string Z) (currentword : string) : gmap string Z :=
  <[currentword := int64 (index words currentword + 1)]> words.

(** The [range] loop of [getWords] over the runes still to come, on the
    two locals [words] and [currentword]. *)
Fixpoint getWords_loop (dc : gmap string Z) (cs : list rune)
    (words : gmap string Z) (currentword : string) : gmap string Z * string :=
  match cs with
  | [] => (words, currentword)
  | c :: rest =>
    if isWordRune c then
      getWords_loop dc rest words (currentword +:+ string_of_rune c)
    else
      getWords_loop dc rest
        (if negb (String.eqb currentword EmptyString) && (index dc currentword =? 0)
         then count words currentword else words)
        EmptyString
  end.

(** [getWords(text)], reading the global [defaultCompletions] as [dc]. *)
Definition getWords (dc : gmap string Z) (text : string) : gmap string Z :=
  let '(words, currentword) := getWords_loop dc (range_string text) ∅ EmptyString in
  if negb (String.eqb currentword EmptyString) then count words currentword
  else words.

(** ** The cursor scan of the completion case *)

Record Cursor := {
  curline : Z;
  line_pos : Z;
  curword : string;
  tocomplete : string;
  leadup : list string
}.

(** The body of the loop at a rune other than a newline, on the line of
    the request: the new [curword] and [leadup]. *)
Definition on_line (c : rune) (s : Cursor) : string * list string :=
  if isWordRune c then (curword s +:+ string_of_rune c, leadup s)
  else if c =? 46 then (EmptyString, (leadup s ++ [curword s])%list)
  else (EmptyString, []).

(** The loop [for _, c := range filecontent] with its [break]. *)
Fixpoint cursor_loop (Line Character : Z) (cs : list rune) (s : Cursor) : Cursor :=
  match cs with
  | [] => s
  | c :: rest =>
    let pos := line_pos s + 1 in
    if c =? 10 then
      let s' := {| curline := curline s + 1;
                   line_pos := 0;
                   curword := curword s;
                   tocomplete := if (curline s =? Line) && (pos =? Character)
                                 then curword s else tocomplete s;
                   leadup := leadup s |} in
      if curline s' >? Line then s' else cursor_loop Line Character rest s'
    else if curline s =? Line then
      let '(w, l) := on_line c s in
      cursor_loop Line Character rest
        {| curline := curline s;
           line_pos := pos;
           curword := w;
           tocomplete := if pos =? Character then w else tocomplete s;
           leadup := l |}
    else
      cursor_loop Line Character rest
        {| curline := curline s;
           line_pos := pos;
           curword := curword s;
           tocomplete := tocomplete s;
           leadup := leadup s |}
  end.

(** The scan and the test that follows it: the locals when the log line
    is written. *)
Definition cursor (filecontent : string) (Line Character : Z) : Cursor :=
  let s := cursor_loop Line Character (range_string filecontent)
             {| curline := 0; line_pos := 0; curword := EmptyString;
                tocomplete := EmptyString; leadup := [] |} in
  if (line_pos s + 1 =? Character) && (curline s =? Line) then
    {| curline := curline s; line_pos := line_pos s; curword := curword s;
       tocomplete := curword s; leadup := leadup s |}
  else s.

(** [leadups]: every segment followed by a dot. *)
Definition leadups (l : list string) : string :=
  foldl (fun acc li => acc +:+ (li +:+ ".")) EmptyString l.

(** ** The candidate loops *)

Definition padLen : Z := 6.

Definition sortText (value : Z) : string :=
  padStart (FormatInt (int64 (1000000 - value))) "0" padLen.

Definition item (key : string) (value : Z) : CompletionItem :=
  {| Label := key; Kind := 3; InsertText := key; InsertTextFmt := 1;
     SortText := sortText value |}.

(** One [for key, value := range m] loop appending to [items].  The
    entries come in the order of [map_to_list]; Go fixes none. *)
Definition candidates (m : gmap string Z) (tocomplete : string)
    (items : list CompletionItem) : list CompletionItem :=
  foldl (fun items kv =>
           if String.eqb (fst kv) tocomplete then items
           else (items ++ [item (fst kv) (snd kv)])%list)
        items (map_to_list m).

Definition completionItems (file : OpenFile) (dc : gmap string Z)
    (tocomplete : string) : list CompletionItem :=
  candidates dc tocomplete (candidates (words file) tocomplete []).

(** ** [Handle] *)

(** [files[uri] = OpenFile{uri, text, getWords(&text)}]. *)
Definition store (g : Globals) (uri text : string) : Globals :=
  {| files := <[uri := {| uri := uri; content := text;
                          words := getWords (defaultCompletions g) text |}]> (files g);
     defaultCompletions := defaultCompletions g |}.

Definition didChange (g : Globals) (req : Request) : Outcome :=
  match getURI req, Params req with
  | None, _ | _, None => Panicked
  | Some (DecodeError err), _ => Returned g [log err]
  | Some (Decoded uri), Some raw =>
    match contentChanges_text raw with
    | DecodeError err =>
      Returned g [ReplyWithError (req_ID req) CodeParseError
                    ("invalid change params: " +:+ err)]
    | Decoded [] => Panicked
    | Decoded (text :: _) => Returned (store g uri text) []
    end
  end.

Definition didOpen (g : Globals) (req : Request) : Outcome :=
  match getURI req, Params req with
  | None, _ | _, None => Panicked
  | Some (DecodeError err), _ => Returned g [log err]
  | Some (Decoded uri), Some raw =>
    match textDocument_text raw with
    | DecodeError err =>
      Returned g [ReplyWithError (req_ID req) CodeParseError
                    ("invalid open params: " +:+ err)]
    | Decoded text => Returned (store g uri text) []
    end
  end.

Definition completion (g : Globals) (req : Request) : Outcome :=
  match getURI req, Params req with
  | None, _ | _, None => Panicked
  | Some (DecodeError err), _ => Returned g [log err]
  | Some (Decoded uri), Some raw =>
    match files g !! uri with
    | None => Returned g [log "FILE NOT OPEN"]
    | Some file =>
      match position raw with
      | DecodeError err =>
        Returned g [ReplyWithError (req_ID req) CodeParseError
                      ("invalid completion params: " +:+ err)]
      | Decoded (Line, Character) =>
        let s := cursor (content file) Line Character in
        Returned g
          [log (leadups (leadup s) +:+ tocomplete s);
           Reply (req_ID req)
             (CompletionList false
                (completionItems file (defaultCompletions g) (tocomplete s)))]
      end
    end
  end.

(** The [switch req.Method]. *)
Definition Handle (g : Globals) (req : Request) : Outcome :=
  let m := Method req in
  if String.eqb m "initialize" then
    Returned g [Reply (req_ID req) (InitializeResult ["."; ":"])]
  else if String.eqb m "initialized" then
    Returned g [log "Language server initialized successfully"]
  else if String.eqb m "shutdown" then
    Returned g [Reply (req_ID req) NilResult]
  else if String.eqb m "exit" then Exited 0
  else if String.eqb m "workspace/didChangeConfiguration" then
    Returned g [log "Ack"]
  else if String.eqb m "textDocument/didChange" then didChange g req
  else if String.eqb m "textDocument/didOpen" then didOpen g req
  else if String.eqb m "textDocument/didSave" then Returned g []
  else if String.eqb m "textDocument/hover" then Returned g []
  else if String.eqb m "textDocument/completion" then completion g req
  else
    Returned g [ReplyWithError (req_ID req) CodeMethodNotFound
                  ("method not found < " +:+ m)].

(** ** Histories *)

(** The globals after a sequence of requests, each handled to its return;
    [None] when one of them ends the process. *)
Fixpoint serve (g : Globals) (reqs : list Request) : option Globals :=
  match reqs with
  | [] => Some g
  | req :: rest =>
    match Handle g req with
    | Returned g' _ => serve g' rest
    | Exited _ | Panicked => None
    end
  end.

(** [req] is a [didOpen] or [didChange] that names [u]. *)
Definition names (u : string) (req : Request) : Prop :=
  (Method req = "textDocument/didOpen"
   \/ Method req = "textDocument/didChange")
  /\ getURI req = Some (Decoded u).

(** Every stored record carries the tokenization of its own text. *)
Definition consistent (g : Globals) : Prop :=
  forall u file, files g !! u = Some file ->
    words file = getWords (defaultCompletions g) (content file).

(** ** The tokenizer's scan *)

(** What the scan of [getWords] has put into [words]: no empty key and no
    key of [dc] with a non-zero weight. *)
Definition scanned (dc words : gmap string Z) : Prop :=
  forall k, is_Some (words !! k) -> k <> EmptyString /\ index dc k = 0.

(** The word still in the buffer when the scan of [getWords] ends. *)
Definition trailing (dc : gmap string Z) (text : string) : string :=
  snd (getWords_loop dc (range_string text) ∅ EmptyString).

End Server.

(** The six decimal digits of [v], most significant first. *)
Definition key6 (v : Z) : string :=
  String (digit (v / 10 / 10 / 10 / 10 / 10 mod 10))
 (String (digit (v / 10 / 10 / 10 / 10 mod 10))
 (String (digit (v / 10 / 10 / 10 mod 10))
 (String (digit (v / 10 / 10 mod 10))
 (String (digit (v / 10 mod 10))
 (String (digit (v mod 10)) EmptyString))))).

(** [a] is ranked before [b]: its sort key is the smaller string. *)
Definition ranked_before (a b : CompletionItem) : Prop :=
  string_ltb (SortText a) (SortText b) = true.

Definition a_py : string := "file:///a.py".

(** ** Requests as an editor sends them *)

(** The params [{textDocument: {uri: u, text: text}}] of a [didOpen]
    notification. *)
Definition open_params (u text : string) : RawMessage :=
  {| textDocument_uri := Decoded u;
     contentChanges_text := Decoded [];
     textDocument_text := Decoded text;
     position := Decoded (0, 0) |}.

(** The params [{textDocument: {uri: u}, contentChanges: [{text: t}, ...]}]
    of a [didChange] notification. *)
Definition change_params (u : string) (texts : list string) : RawMessage :=
  {| textDocument_uri := Decoded u;
     contentChanges_text := Decoded texts;
     textDocument_text := Decoded EmptyString;
     position := Decoded (0, 0) |}.

(** The params [{textDocument: {uri: u}, position: {line, character}}] of
    a completion request. *)
Definition completion_params (u : string) (Line Character : Z) : RawMessage :=
  {| textDocument_uri := Decoded u;
     contentChanges_text := Decoded [];
     textDocument_text := Decoded EmptyString;
     position := Decoded (Line, Character) |}.

Definition didOpen_request (u text : string) : Request :=
  {| Method := "textDocument/didOpen"; req_ID := IDNum 0;
     Params := Some (open_params u text) |}.

Definition didChange_request (u : string) (texts : list string) : Request :=
  {| Method := "textDocument/didChange"; req_ID := IDNum 0;
     Params := Some (change_params u texts) |}.

Definition completion_request (id : ID) (u : string) (Line Character : Z)
    : Request :=
  {| Method := "textDocument/completion"; req_ID := id;
     Params := Some (completion_params u Line Character) |}.

(** [sub] occurs in [s]. *)
Definition substring (sub s : string) : Prop :=
  exists pre post, s = pre +:+ (sub +:+ post).

(** The method names with a case of their own in the switch. *)
Definition recognized : list string :=
  ["initialize"; "initialized"; "shutdown"; "exit";
   "workspace/didChangeConfiguration"; "textDocument/didChange";
   "textDocument/didOpen"; "textDocument/didSave"; "textDocument/hover";
   "textDocument/completion"].

(** The runes of [text] are all ASCII. *)
Definition ascii_text (text : string) : bool :=
  forallb (fun c => (0 <=? c) && (c <? 0x80)) (range_string text).

(** ** Words and lines, for stating what the scans compute *)

(** Every byte of [s] is below [0x80]. *)
Definition ascii_string (s : string) : bool :=
  forallb (fun b => byteZ b <? 0x80) (list_ascii_of_string s).

(** The buffer [cw] after [cw += string(c)] for each rune of [cs] in turn. *)
Definition append_runes (cw : string) (cs : list rune) : string :=
  foldl (fun s c => s +:+ string_of_rune c) cw cs.

Definition string_of_runes (cs : list rune) : string :=
  append_runes EmptyString cs.

(** 1 for a buffer that holds a word, 0 for the empty buffer. *)
Definition pending (cw : string) : Z :=
  if String.eqb cw EmptyString then 0 else 1.

(** The number of newline runes in [cs]. *)
Fixpoint newlines (cs : list rune) : Z :=
  match cs with
  | [] => 0
  | c :: rest => (if c =? 10 then 1 else 0) + newlines rest
  end.

(** The counts in [words] after [n] runes: at least 1, and at most [n]
    less the rune that the word in the buffer already took. *)
Definition counted (n : Z) (words : gmap string Z) (cw : string) : Prop :=
  pending cw <= n
  /\ forall k v, words !! k = Some v -> 1 <= v <= n - pending cw.

Section Words.

Context {U : UnicodeTables}.

Definition word_runes (cs : list rune) : Prop :=
  Forall (fun c => isWordRune c = true) cs.

(** [w] is the encoding of word runes and of nothing else. *)
Definition wordy (w : string) : Prop :=
  exists cs, word_runes cs /\ w = string_of_runes cs.

(** The three strings of the scan hold word runes only. *)
Definition wordy_cursor (s : Cursor) : Prop :=
  wordy (curword s) /\ wordy (tocomplete s) /\ Forall wordy (leadup s).

(** Once the scan is at or past the character of the request on its line,
    or past the line, nothing is captured any more. *)
Definition past_cursor (Line Character : Z) (s : Cursor) : Prop :=
  (curline s = Line /\ Character <= line_pos s) \/ Line < curline s.

End Words.

(** ** What a call of [Handle] sends *)

(** The event lists a returning call of [Handle] can send for [req]. *)
Inductive answer_shape (req : Request) : list Event -> Prop :=
  | shape_none : answer_shape req []
  | shape_log (message : string) : answer_shape req [log message]
  | shape_reply (r : Result) : answer_shape req [Reply (req_ID req) r]
  | shape_error (code : Z) (message : string) :
      answer_shape req [ReplyWithError (req_ID req) code message]
  | shape_completion (message : string) (items : list CompletionItem) :
      answer_shape req
        [log message; Reply (req_ID req) (CompletionList false items)].

(** [e] is a reply to [req], or a log notification. *)
Definition answers (req : Request) (e : Event) : Prop :=
  match e with
  | Reply id _ | ReplyWithError id _ _ => id = req_ID req
  | Notify method params => method = "window/logMessage" /\ Type_ params = 4
  end.

Definition is_reply (e : Event) : bool :=
  match e with
  | Notify _ _ => false
  | Reply _ _ | ReplyWithError _ _ _ => true
  end.

(** [req] is a [didOpen] carrying [text] for [u], or a [didChange] for [u]
    whose first change carries [text]. *)
Definition writes (req : Request) (u text : string) : Prop :=
  exists raw,
    Params req = Some raw
    /\ textDocument_uri raw = Decoded u
    /\ ((Method req = "textDocument/didOpen"
         /\ textDocument_text raw = Decoded text)
        \/ (Method req = "textDocument/didChange"
            /\ exists rest, contentChanges_text raw = Decoded (text :: rest))).

(** Params whose [textDocument.uri] is not a string, and params whose
    [position] is not an object: what [json.Unmarshal] makes of them. *)
Definition bad_uri_params : RawMessage :=
  {| textDocument_uri := DecodeError "bad uri";
     contentChanges_text := Decoded [];
     textDocument_text := Decoded "cat";
     position := Decoded (0, 0) |}.

Definition bad_position_params (u : string) : RawMessage :=
  {| textDocument_uri := Decoded u;
     contentChanges_text := Decoded [];
     textDocument_text := Decoded EmptyString;
     position := DecodeError "bad position" |}.

(** * Properties *)

(** ** [padStart] ends *)

Lemma len_append (s t : string) : len (s +:+ t) = len s + len t.
Proof.
  unfold len. induction s as [|a s IH]; simpl.
  - reflexivity.
  - rewrite !Nat2Z.inj_succ, IH. lia.
Qed.

Lemma padStart_loop_exit (fuel : nat) (s pad : string) (length : Z) :
  pad <> EmptyString ->
  length - len s <= Z.of_nat fuel ->
  ~ len (padStart_loop fuel s pad length) < length.
Proof.
  intros Hpad. revert s.
  induction fuel as [|fuel IH]; intros s Hfuel; cbn [padStart_loop].
  - lia.
  - destruct (Z.ltb_spec (len s) length) as [Hlt|Hge]; [|lia].
    apply IH. rewrite len_append.
    destruct pad as [|a pad]; [congruence|].
    unfold len at 1. simpl String.length. lia.
Qed.

(** The fuel of [padStart] is enough: the value it returns makes the loop
    condition [len(s) < length] false. *)
Lemma padStart_exit (s pad : string) (length : Z) :
  pad <> EmptyString -> ~ len (padStart s pad length) < length.
Proof.
  intros Hpad. unfold padStart. apply padStart_loop_exit; [assumption|lia].
Qed.

(** ** The candidate loops, by membership *)

Lemma candidates_list (l : list (string * Z)) (p : string)
    (items : list CompletionItem) (it : CompletionItem) :
  it ∈ foldl (fun items kv =>
                if String.eqb (fst kv) p then items
                else (items ++ [item (fst kv) (snd kv)])%list) items l
  <-> it ∈ items \/ exists k v, (k, v) ∈ l /\ k <> p /\ it = item k v.
Proof.
  revert items. induction l as [|[k v] l IH]; intros items; simpl.
  - split; [tauto|]. intros [H|(k & v & H & _)]; [assumption|].
    inversion H.
  - rewrite IH. clear IH.
    destruct (String.eqb_spec k p) as [->|Hne].
    + split.
      * intros [H|(k & v' & Hin & Hk & ->)]; [tauto|].
        right. exists k, v'. rewrite elem_of_cons. tauto.
      * intros [H|(k & v' & Hin & Hk & ->)]; [tauto|].
        right. exists k, v'. apply elem_of_cons in Hin as [Heq|Hin].
        -- congruence.
        -- tauto.
    + rewrite elem_of_app, list_elem_of_singleton. split.
      * intros [[H| ->]|(k' & v' & Hin & Hk & ->)].
        -- tauto.
        -- right. exists k, v. rewrite elem_of_cons. tauto.
        -- right. exists k', v'. rewrite elem_of_cons. tauto.
      * intros [H|(k' & v' & Hin & Hk & ->)]; [tauto|].
        apply elem_of_cons in Hin as [Heq|Hin].
        -- inversion Heq; subst. tauto.
        -- right. exists k', v'. tauto.
Qed.

Lemma candidates_spec (m : gmap string Z) (p : string)
    (items : list CompletionItem) (it : CompletionItem) :
  it ∈ candidates m p items
  <-> it ∈ items \/ exists k v, m !! k = Some v /\ k <> p /\ it = item k v.
Proof.
  unfold candidates. rewrite candidates_list.
  split; (intros [H|(k & v & H & Hk)]; [tauto|]); right; exists k, v;
    [rewrite <- elem_of_map_to_list|rewrite elem_of_map_to_list]; tauto.
Qed.

(** A reply lists exactly the entries of the two maps whose key is not the
    word under the cursor. *)
Lemma completionItems_spec (file : OpenFile) (dc : gmap string Z)
    (p : string) (it : CompletionItem) :
  it ∈ completionItems file dc p
  <-> exists k v, (words file !! k = Some v \/ dc !! k = Some v)
                  /\ k <> p /\ it = item k v.
Proof.
  unfold completionItems. rewrite !candidates_spec. split.
  - intros [[H|(k & v & H & Hk)]|(k & v & H & Hk)].
    + inversion H.
    + exists k, v. tauto.
    + exists k, v. tauto.
  - intros (k & v & [H|H] & Hk); [left; right|right]; exists k, v; tauto.
Qed.

(** ** Running on ASCII texts

    On a text whose runes are all ASCII the program does not depend on the
    Unicode tables beyond the ASCII range, so it can be run with
    [ascii_tables]. *)

Section Ascii.

Context {U : UnicodeTables}.

Lemma isWordRune_ascii (c : rune) :
  0 <= c < 0x80 -> @isWordRune U c = @isWordRune ascii_tables c.
Proof.
  intros H. unfold isWordRune.
  rewrite (@IsLetter_ascii U), (@IsDigit_ascii U) by assumption.
  rewrite (@IsLetter_ascii ascii_tables), (@IsDigit_ascii ascii_tables)
    by assumption.
  reflexivity.
Qed.

Lemma ascii_rune (c : rune) :
  (0 <=? c) && (c <? 0x80) = true -> 0 <= c < 0x80.
Proof. intros H. apply andb_true_iff in H as [H0 H1]. lia. Qed.

Lemma getWords_loop_ascii (dc : gmap string Z) (cs : list rune)
    (words : gmap string Z) (currentword : string) :
  forallb (fun c => (0 <=? c) && (c <? 0x80)) cs = true ->
  @getWords_loop U dc cs words currentword
  = @getWords_loop ascii_tables dc cs words currentword.
Proof.
  revert words currentword.
  induction cs as [|c cs IH]; intros words currentword H; simpl in *.
  - reflexivity.
  - apply andb_true_iff in H as [Hc Hcs].
    rewrite (isWordRune_ascii c (ascii_rune c Hc)).
    destruct (@isWordRune ascii_tables c); apply IH; assumption.
Qed.

Lemma getWords_ascii (dc : gmap string Z) (text : string) :
  ascii_text text = true ->
  @getWords U dc text = @getWords ascii_tables dc text.
Proof.
  intros H. unfold getWords. now rewrite getWords_loop_ascii.
Qed.

Lemma cursor_loop_ascii (Line Character : Z) (cs : list rune) (s : Cursor) :
  forallb (fun c => (0 <=? c) && (c <? 0x80)) cs = true ->
  @cursor_loop U Line Character cs s
  = @cursor_loop ascii_tables Line Character cs s.
Proof.
  revert s. induction cs as [|c cs IH]; intros s H; simpl in *.
  - reflexivity.
  - apply andb_true_iff in H as [Hc Hcs].
    unfold on_line. rewrite (isWordRune_ascii c (ascii_rune c Hc)).
    destruct (c =? 10).
    + destruct (curline s + 1 >? Line); [reflexivity|now apply IH].
    + destruct (curline s =? Line); [|now apply IH].
      destruct (@isWordRune ascii_tables c); [now apply IH|].
      destruct (c =? 46); now apply IH.
Qed.

Lemma cursor_ascii (filecontent : string) (Line Character : Z) :
  ascii_text filecontent = true ->
  @cursor U filecontent Line Character
  = @cursor ascii_tables filecontent Line Character.
Proof.
  intros H. unfold cursor. now rewrite cursor_loop_ascii.
Qed.

End Ascii.

(** ** The tokenizer's keys *)

Section Tokenizer.

Context {U : UnicodeTables}.

Lemma getWords_loop_scanned (dc : gmap string Z) (cs : list rune)
    (words : gmap string Z) (currentword : string) :
  scanned dc words ->
  scanned dc (fst (getWords_loop dc cs words currentword)).
Proof.
  revert words currentword.
  induction cs as [|c cs IH]; intros words currentword Hw; simpl.
  - assumption.
  - destruct (isWordRune c); [now apply IH|].
    apply IH.
    destruct (String.eqb_spec currentword EmptyString) as [He|Hne];
      [assumption|]. simpl.
    destruct (Z.eqb_spec (index dc currentword) 0) as [Hz|Hnz];
      [|assumption].
    intros k Hk. unfold count in Hk.
    destruct (decide (currentword = k)) as [<-|Hk'].
    + split; assumption.
    + rewrite lookup_insert_ne in Hk by assumption. now apply Hw.
Qed.

(** The keys of [getWords]: never empty; and outside the keyword table,
    except for the word the text ends in. *)
Lemma getWords_keys (dc : gmap string Z) (text k : string) :
  is_Some (getWords dc text !! k) ->
  k <> EmptyString /\ (index dc k = 0 \/ k = trailing dc text).
Proof.
  unfold getWords, trailing.
  pose proof (getWords_loop_scanned dc (range_string text) ∅ EmptyString) as Hs.
  destruct (getWords_loop dc (range_string text) ∅ EmptyString)
    as [words currentword]. simpl in *.
  assert (scanned dc words) as Hw.
  { apply Hs. intros k' Hk'. rewrite lookup_empty in Hk'.
    now destruct Hk'. }
  clear Hs.
  destruct (String.eqb_spec currentword EmptyString) as [He|Hne]; simpl.
  - intros Hk. destruct (Hw k Hk). tauto.
  - unfold count. destruct (decide (currentword = k)) as [<-|Hk'].
    + tauto.
    + rewrite lookup_insert_ne by assumption.
      intros Hk. destruct (Hw k Hk). tauto.
Qed.

End Tokenizer.

(** ** The switch, case by case *)

Section Dispatch.

Context {U : UnicodeTables}.

Lemma Handle_didChange (g : Globals) (req : Request) :
  Method req = "textDocument/didChange" -> Handle g req = didChange g req.
Proof. intros H. unfold Handle. now rewrite H. Qed.

Lemma Handle_didOpen (g : Globals) (req : Request) :
  Method req = "textDocument/didOpen" -> Handle g req = didOpen g req.
Proof. intros H. unfold Handle. now rewrite H. Qed.

Lemma Handle_completion (g : Globals) (req : Request) :
  Method req = "textDocument/completion" -> Handle g req = completion g req.
Proof. intros H. unfold Handle. now rewrite H. Qed.

(** Splits a hypothesis [Hname : Handle g req = _] into the eleven arms of
    the switch. *)
Ltac switch_cases H :=
  unfold Handle in H;
  repeat match type of H with
         | (if String.eqb ?m ?s then _ else _) = _ =>
           let E := fresh "Hm" in
           destruct (String.eqb_spec m s) as [E|E]
         end.

(** A call of [Handle] that returns leaves the globals as they were or
    stores one record through [store]. *)
Lemma Handle_globals (g g' : Globals) (req : Request) (out : list Event) :
  Handle g req = Returned g' out ->
  g' = g \/ exists uri text, g' = store g uri text.
Proof.
  intros H. switch_cases H;
    try (injection H as <- _; now left); try discriminate.
  - unfold didChange in H.
    destruct (getURI req) as [[uri|err]|], (Params req) as [raw|];
      try discriminate; try (injection H as <- _; now left).
    destruct (contentChanges_text raw) as [[|text rest]|err];
      try discriminate; injection H as <- _; [right; eauto|now left].
  - unfold didOpen in H.
    destruct (getURI req) as [[uri|err]|], (Params req) as [raw|];
      try discriminate; try (injection H as <- _; now left).
    destruct (textDocument_text raw) as [text|err];
      injection H as <- _; [right; eauto|now left].
  - unfold completion in H.
    destruct (getURI req) as [[uri|err]|], (Params req) as [raw|];
      try discriminate; try (injection H as <- _; now left).
    destruct (files g !! uri) as [file|]; [|injection H as <- _; now left].
    destruct (position raw) as [[Line Character]|err];
      injection H as <- _; now left.
Qed.

Lemma store_lookup (g : Globals) (u text : string) :
  files (store g u text) !! u
  = Some {| uri := u; content := text;
            words := getWords (defaultCompletions g) text |}.
Proof. unfold store. simpl. apply lookup_insert_eq. Qed.

Lemma store_consistent (g : Globals) (u text : string) :
  consistent g -> consistent (store g u text).
Proof.
  intros Hg u' file. unfold store. simpl.
  destruct (decide (u = u')) as [<-|Hne].
  - rewrite lookup_insert_eq. intros [= <-]. reflexivity.
  - rewrite lookup_insert_ne by assumption. apply Hg.
Qed.

Lemma Handle_consistent (g g' : Globals) (req : Request) (out : list Event) :
  consistent g -> Handle g req = Returned g' out -> consistent g'.
Proof.
  intros Hg H. apply Handle_globals in H as [->|(u & text & ->)].
  - assumption.
  - now apply store_consistent.
Qed.

Lemma main_consistent : consistent main.
Proof. intros u file H. unfold main in H. simpl in H. now rewrite lookup_empty in H. Qed.

Lemma serve_consistent (reqs : list Request) (g g' : Globals) :
  consistent g -> serve g reqs = Some g' -> consistent g'.
Proof.
  revert g. induction reqs as [|req reqs IH]; intros g Hg H; simpl in H.
  - now injection H as <-.
  - destruct (Handle g req) as [g1 out| |] eqn:Hh; try discriminate.
    apply (IH g1); [|assumption].
    exact (Handle_consistent g g1 req out Hg Hh).
Qed.

(** C1. Every record of the document store holds the tokenization of its
    own text: this is so after any sequence of requests handled since
    [main], every call of [Handle] keeps it so, and a [didOpen] (with text
    [text]) or a [didChange] (whose first change carries [text]) for [u]
    returns with [files[u]] holding [text] together with
    [getWords(text)]. *)
Theorem frequencies_are_tokenization :
  (forall reqs g, serve main reqs = Some g -> consistent g)
  /\ (forall g req g' out,
        consistent g -> Handle g req = Returned g' out -> consistent g')
  /\ (forall g req raw u text,
        Params req = Some raw ->
        textDocument_uri raw = Decoded u ->
        (Method req = "textDocument/didOpen"
         /\ textDocument_text raw = Decoded text)
        \/ (Method req = "textDocument/didChange"
            /\ exists rest, contentChanges_text raw = Decoded (text :: rest)) ->
        exists g',
          Handle g req = Returned g' []
          /\ files g' !! u
             = Some {| uri := u; content := text;
                       words := getWords (defaultCompletions g) text |}).
Proof.
  split; [intros reqs g; apply serve_consistent, main_consistent|].
  split; [intros g req g' out; apply Handle_consistent|].
  intros g req raw u text Hp Hu [[Hm Ht]|[Hm [rest Ht]]];
    exists (store g u text); split; try apply store_lookup.
  - rewrite Handle_didOpen by assumption.
    unfold didOpen, getURI. now rewrite Hp, Hu, Ht.
  - rewrite Handle_didChange by assumption.
    unfold didChange, getURI. now rewrite Hp, Hu, Ht.
Qed.

(** C3. A completion reply never offers the word under the cursor:
    whenever a call of [Handle] sends a completion list, the request is a
    completion request for a stored file, and no item of the list has the
    label [tocomplete] that the cursor scan resolved. *)
Theorem completion_excludes_partial (g g' : Globals) (req : Request)
    (out : list Event) (id : ID) (b : bool) (items : list CompletionItem) :
  Handle g req = Returned g' out ->
  Reply id (CompletionList b items) ∈ out ->
  exists raw u file Line Character,
    Method req = "textDocument/completion"
    /\ Params req = Some raw
    /\ textDocument_uri raw = Decoded u
    /\ files g !! u = Some file
    /\ position raw = Decoded (Line, Character)
    /\ forall it, it ∈ items ->
         Label it <> tocomplete (cursor (content file) Line Character).
Proof.
  intros H Hin.
  assert (forall e : Event, Reply id (CompletionList b items) ∈ [e] ->
            Reply id (CompletionList b items) = e) as Hone.
  { intros e He. now apply list_elem_of_singleton in He. }
  switch_cases H; try discriminate;
    try (injection H as _ <-; apply Hone in Hin; discriminate);
    try (injection H as _ <-; inversion Hin).
  - unfold didChange in H.
    destruct (getURI req) as [[u|err]|], (Params req) as [raw|];
      try discriminate;
      try (injection H as _ <-; apply Hone in Hin; discriminate).
    destruct (contentChanges_text raw) as [[|text rest]|err];
      try discriminate; injection H as _ <-;
      [inversion Hin|apply Hone in Hin; discriminate].
  - unfold didOpen in H.
    destruct (getURI req) as [[u|err]|], (Params req) as [raw|];
      try discriminate;
      try (injection H as _ <-; apply Hone in Hin; discriminate).
    destruct (textDocument_text raw) as [text|err]; injection H as _ <-;
      [inversion Hin|apply Hone in Hin; discriminate].
  - unfold completion, getURI in H.
    destruct (Params req) as [raw|]; [|discriminate].
    destruct (textDocument_uri raw) as [u|err] eqn:Hu;
      [|injection H as _ <-; apply Hone in Hin; discriminate].
    destruct (files g !! u) as [file|] eqn:Hf;
      [|injection H as _ <-; apply Hone in Hin; discriminate].
    destruct (position raw) as [[Line Character]|err] eqn:Hpos;
      [|injection H as _ <-; apply Hone in Hin; discriminate].
    injection H as _ <-.
    apply elem_of_cons in Hin as [Hin|Hin]; [discriminate|].
    apply Hone in Hin. injection Hin as _ _ ->.
    exists raw, u, file, Line, Character. repeat (split; [easy|]).
    intros it Hit.
    apply completionItems_spec in Hit as (k & v & _ & Hk & ->).
    exact Hk.
Qed.

End Dispatch.

(** ** The tokenizer, the cursor scan and the switch on examples *)

Section Behaviour.

Context {U : UnicodeTables}.

Lemma main_keyword (k : string) :
  defaultCompletions main !! k = if decide (k ∈ defs) then Some 11 else None.
Proof.
  unfold main. cbn [defaultCompletions].
  assert (forall (l : list string) (m : gmap string Z),
            foldl (fun m d => <[d := 11]> m) m l !! k
            = if decide (k ∈ l) then Some 11 else m !! k) as Hfold.
  { induction l as [|d l IH]; intros m; simpl.
    - destruct (decide (k ∈ [])) as [H|_]; [inversion H|reflexivity].
    - rewrite IH.
      destruct (decide (k ∈ l)) as [Hl|Hl], (decide (k ∈ d :: l)) as [Hd|Hd];
        try reflexivity.
      + exfalso. apply Hd. now right.
      + apply elem_of_cons in Hd as [->|Hd]; [|contradiction].
        apply lookup_insert_eq.
      + rewrite lookup_insert_ne; [reflexivity|].
        intros ->. apply Hd. now left. }
  rewrite Hfold. now rewrite lookup_empty.
Qed.

(** C2. The flush at the end of [getWords] does not look the word up in
    the keyword table: for the text [for], a keyword with weight 11, the
    result counts [for] once, while the same word followed by a space is
    left out by the flush inside the scan. *)
Theorem trailing_keyword_is_counted :
  defaultCompletions main !! "for" = Some 11
  /\ getWords (defaultCompletions main) "for" !! "for" = Some 1
  /\ getWords (defaultCompletions main) "for " !! "for" = None.
Proof.
  split; [vm_compute; reflexivity|].
  rewrite !(@getWords_ascii U) by (vm_compute; reflexivity).
  split; vm_compute; reflexivity.
Qed.

(** C6. The two worked examples of the cursor scan: on [foo.bar.baz] at
    line 0, character 11 it ends with [leadup = [foo; bar]] and
    [tocomplete = baz]; on [x = 1], newline, [foo.b] at line 1,
    character 5 it ends with [tocomplete = b] and [leadup = [foo]]. *)
Theorem cursor_worked_examples :
  (leadup (cursor "foo.bar.baz" 0 11) = ["foo"; "bar"]
   /\ tocomplete (cursor "foo.bar.baz" 0 11) = "baz")
  /\ (tocomplete (cursor ("x = 1" +:+ String "010" "foo.b") 1 5) = "b"
      /\ leadup (cursor ("x = 1" +:+ String "010" "foo.b") 1 5) = ["foo"]).
Proof.
  rewrite !(@cursor_ascii U) by (vm_compute; reflexivity).
  repeat split; vm_compute; reflexivity.
Qed.

(** C10. On the line of the request a dot appends the word buffer to
    [leadup] whatever the buffer holds, the empty string included: for
    [a..b] at line 0, character 4 the scan ends with [leadup = [a; empty]]
    and [tocomplete = b], and for [.b] at line 0, character 2 the first
    segment of [leadup] is empty. *)
Theorem dot_appends_empty_segment :
  (forall s, isWordRune 46 = false
             /\ on_line 46 s = (EmptyString, (leadup s ++ [curword s])%list))
  /\ (leadup (cursor "a..b" 0 4) = ["a"; EmptyString]
      /\ tocomplete (cursor "a..b" 0 4) = "b")
  /\ leadup (cursor ".b" 0 2) = [EmptyString].
Proof.
  assert (isWordRune 46 = false) as Hdot.
  { rewrite (@isWordRune_ascii U) by lia. vm_compute. reflexivity. }
  split.
  - intros s. split; [assumption|]. unfold on_line. now rewrite Hdot.
  - rewrite !(@cursor_ascii U) by (vm_compute; reflexivity).
    repeat split; vm_compute; reflexivity.
Qed.

(** C8. A method without a case of its own is answered with a
    [CodeMethodNotFound] error whose message contains the method name,
    and nothing else happens. *)
Theorem unknown_method_not_found (g : Globals) (req : Request) :
  Method req ∉ recognized ->
  exists message,
    Handle g req
    = Returned g [ReplyWithError (req_ID req) CodeMethodNotFound message]
    /\ substring (Method req) message.
Proof.
  intros Hm. exists ("method not found < " +:+ Method req). split.
  - unfold Handle.
    repeat match goal with
           | |- (if String.eqb ?m ?s then _ else _) = _ =>
             destruct (String.eqb_spec m s) as [E|_];
               [exfalso; apply Hm; rewrite E; unfold recognized;
                rewrite !elem_of_cons; tauto|]
           end.
    reflexivity.
  - exists "method not found < ", EmptyString.
    assert (forall s : string, s +:+ EmptyString = s) as Hnil.
    { induction s as [|a s IH]; [reflexivity|].
      change (String a s +:+ EmptyString) with (String a (s +:+ EmptyString)).
      congruence. }
    now rewrite Hnil.
Qed.

(** C9. [didChange] indexes [ContentChanges[0]] with no test of the
    length.  For a [didChange] whose params are present and whose URI and
    changes decode: when the decoded slice is not empty the call returns
    with [files[u]] holding the text of the first entry together with its
    tokenization, the records of other URIs and the keyword table being
    as before; and the call panics exactly when the slice is empty. *)
Theorem didChange_first_entry (g : Globals) (req : Request)
    (raw : RawMessage) (u : string) (changes : list string) :
  Method req = "textDocument/didChange" ->
  Params req = Some raw ->
  textDocument_uri raw = Decoded u ->
  contentChanges_text raw = Decoded changes ->
  (changes <> [] ->
   exists text rest g',
     changes = text :: rest
     /\ Handle g req = Returned g' []
     /\ g' = store g u text
     /\ files g' !! u
        = Some {| uri := u; content := text;
                  words := getWords (defaultCompletions g) text |}
     /\ (forall u', u' <> u -> files g' !! u' = files g !! u')
     /\ defaultCompletions g' = defaultCompletions g)
  /\ (Handle g req = Panicked <-> changes = []).
Proof.
  intros Hm Hp Hu Hc. rewrite Handle_didChange by assumption.
  unfold didChange, getURI. rewrite Hp, Hu, Hc.
  destruct changes as [|text rest]; split.
  - congruence.
  - tauto.
  - intros _. exists text, rest, (store g u text).
    split; [reflexivity|]. split; [reflexivity|]. split; [reflexivity|].
    split; [apply store_lookup|]. split; [|reflexivity].
    intros u' Hne. unfold store. cbn [files].
    apply lookup_insert_ne. congruence.
  - split; discriminate.
Qed.

End Behaviour.

(** ** The sort key *)

Lemma byteZ_byte_of (z : Z) : 0 <= z < 256 -> byteZ (byte_of z) = z.
Proof.
  intros H. unfold byteZ, byte_of.
  rewrite N_ascii_embedding by lia. lia.
Qed.

Lemma byteZ_digit (d : Z) : 0 <= d < 10 -> byteZ (digit d) = 48 + d.
Proof. intros H. unfold digit. apply byteZ_byte_of. lia. Qed.

Lemma int64_id (z : Z) : - 2 ^ 63 <= z < 2 ^ 63 -> int64 z = z.
Proof. intros H. unfold int64. rewrite Z.mod_small; lia. Qed.

(** [lia] after the quotients and remainders are turned into equations. *)
Ltac divlia := Z.div_mod_to_equations; lia.

Lemma formatBits_more (fuel : nat) (u : Z) (a : string) :
  10 <= u ->
  formatBits (S fuel) u a = formatBits fuel (u / 10) (String (digit (u mod 10)) a).
Proof.
  intros H. cbn [formatBits].
  destruct (Z.ltb_spec u 10); [lia|reflexivity].
Qed.

Lemma formatBits_last (fuel : nat) (u : Z) (a : string) :
  u < 10 -> formatBits fuel u a = String (digit (u mod 10)) a.
Proof.
  intros H. destruct fuel; cbn [formatBits]; [reflexivity|].
  destruct (Z.ltb_spec u 10); [reflexivity|lia].
Qed.

Lemma padStart_FormatInt (v : Z) :
  0 <= v < 1000000 -> padStart (FormatInt v) "0" 6 = key6 v.
Proof.
  intros H. unfold FormatInt.
  destruct (Z.ltb_spec v 0) as [Hneg|_]; [lia|].
  assert (v < 10 \/ 10 <= v < 100 \/ 100 <= v < 1000 \/ 1000 <= v < 10000
          \/ 10000 <= v < 100000 \/ 100000 <= v) as Hcase by lia.
  unfold key6.
  destruct Hcase as [Hc|[Hc|[Hc|[Hc|[Hc|Hc]]]]];
    repeat (rewrite formatBits_more by divlia);
    rewrite formatBits_last by divlia;
    vm_compute padStart; cbv [append];
    repeat match goal with
           | |- String ?a _ = String ?a _ => f_equal
           | |- String "0" _ = String (digit ?d) _ =>
             replace d with 0 by divlia; change (digit 0) with "0"%char
           end;
    reflexivity.
Qed.

Lemma key6_lt (a b : Z) :
  0 <= a -> a < b -> b < 1000000 -> string_ltb (key6 a) (key6 b) = true.
Proof.
  intros H0 Hab Hb. unfold key6. cbn [string_ltb].
  rewrite !byteZ_digit by (apply Z.mod_pos_bound; lia).
  repeat match goal with
         | |- (if ?x <? ?y then _ else _) = true =>
           destruct (Z.ltb_spec x y); [reflexivity|]
         | |- (if ?x =? ?y then _ else _) = true =>
           destruct (Z.eqb_spec x y); [|exfalso; divlia]
         end.
  exfalso. divlia.
Qed.

Lemma key6_above_minus_one (v : Z) :
  0 <= v < 1000000 -> string_ltb "0000-1" (key6 v) = true.
Proof.
  intros H. unfold key6. cbn [string_ltb].
  rewrite !byteZ_digit by (apply Z.mod_pos_bound; lia).
  change (byteZ "0") with 48. change (byteZ "-") with 45.
  repeat match goal with
         | |- (if ?x <? ?y then _ else _) = true =>
           destruct (Z.ltb_spec x y); [reflexivity|]
         | |- (if ?x =? ?y then _ else _) = true =>
           destruct (Z.eqb_spec x y); [|exfalso; divlia]
         end.
  exfalso. divlia.
Qed.

Lemma padStart_loop_rounds (fuel : nat) (s pad : string) (length : Z) :
  pad <> EmptyString ->
  length - len s <= Z.of_nat fuel ->
  exists k : nat,
    padStart_loop fuel s pad length = Nat.iter k (String.append pad) s
    /\ forall j : nat,
         (j < k)%nat -> len (Nat.iter j (String.append pad) s) < length.
Proof.
  intros Hpad. revert s.
  induction fuel as [|fuel IH]; intros s Hfuel; cbn [padStart_loop].
  - exists 0%nat. split; [reflexivity|]. intros j Hj. lia.
  - destruct (Z.ltb_spec (len s) length) as [Hlt|Hge].
    + destruct (IH (pad +:+ s)) as (k & Hk & Hless).
      { rewrite len_append. destruct pad as [|a pad]; [congruence|].
        unfold len at 1. simpl String.length. lia. }
      exists (S k). rewrite Nat.iter_succ_r. split; [exact Hk|].
      intros [|j] Hj; [exact Hlt|].
      rewrite Nat.iter_succ_r. apply Hless. lia.
    + exists 0%nat. split; [reflexivity|]. intros j Hj. lia.
Qed.

Lemma len_prepend_rounds (pad s : string) (j : nat) :
  len (Nat.iter j (String.append pad) s) = len s + Z.of_nat j * len pad.
Proof.
  induction j as [|j IH].
  - simpl. lia.
  - rewrite Nat.iter_succ, len_append, IH. lia.
Qed.

(** A minus sign behind at most [k] zeros is below any string of more
    than [k] bytes that are all digits or above. *)
Lemma minus_below_digits (k : nat) (rest t : string) :
  (k < String.length t)%nat ->
  Forall (fun b => 48 <= byteZ b) (list_ascii_of_string t) ->
  string_ltb (Nat.iter k (String.append "0") (String "-" rest)) t = true.
Proof.
  revert t. induction k as [|k IH]; intros [|b t] Hk Hd;
    simpl String.length in Hk; try lia;
    simpl list_ascii_of_string in Hd; apply Forall_cons in Hd as [Hb Hd].
  - cbn [Nat.iter nat_rect string_ltb]. change (byteZ "-") with 45.
    destruct (Z.ltb_spec 45 (byteZ b)); [reflexivity|lia].
  - rewrite Nat.iter_succ.
    change (String.append "0" (Nat.iter k (String.append "0") (String "-" rest)))
      with (String "0" (Nat.iter k (String.append "0") (String "-" rest))).
    cbn [string_ltb]. change (byteZ "0") with 48.
    destruct (Z.ltb_spec 48 (byteZ b)); [reflexivity|].
    destruct (Z.eqb_spec 48 (byteZ b)); [|lia].
    apply IH; [lia|assumption].
Qed.

(** Beyond the constant the key starts with zeros and a minus sign, and
    is below every key of six digits. *)
Lemma sortText_beyond (c v : Z) :
  1000000 < c -> c < 2 ^ 63 -> 0 <= v < 1000000 ->
  string_ltb (sortText c) (key6 v) = true.
Proof.
  intros Hc Hc' Hv. unfold sortText, padLen. rewrite int64_id by lia.
  unfold FormatInt. destruct (Z.ltb_spec (1000000 - c) 0); [|lia].
  set (s := String "-" (formatBits 19 (- (1000000 - c)) EmptyString)).
  assert (1 <= len s) as Hs.
  { unfold s, len. simpl String.length. lia. }
  unfold padStart.
  destruct (padStart_loop_rounds (Z.to_nat (6 - len s)) s "0" 6)
    as (k & Hk & Hless); [discriminate|lia|].
  rewrite Hk. apply minus_below_digits.
  - change (String.length (key6 v)) with 6%nat.
    destruct (le_lt_dec 6 k) as [Hge|Hlt]; [|exact Hlt].
    specialize (Hless 5%nat). rewrite len_prepend_rounds in Hless.
    change (len "0") with 1 in Hless. lia.
  - unfold key6. simpl list_ascii_of_string.
    repeat (constructor;
            [rewrite byteZ_digit by (apply Z.mod_pos_bound; lia);
             pose proof (Z.mod_pos_bound (v / 10 / 10 / 10 / 10 / 10) 10);
             pose proof (Z.mod_pos_bound (v / 10 / 10 / 10 / 10) 10);
             pose proof (Z.mod_pos_bound (v / 10 / 10 / 10) 10);
             pose proof (Z.mod_pos_bound (v / 10 / 10) 10);
             pose proof (Z.mod_pos_bound (v / 10) 10);
             pose proof (Z.mod_pos_bound v 10); lia|]).
    constructor.
Qed.

(** C4, with the smaller count within the constant.  For counts
    [c1 > c2] where [c2] is between 1 and 1000000 and [c1] is any [int64],
    the sort key of [c1] is strictly below the sort key of [c2] in the
    byte-wise order of strings. *)
Theorem sortText_monotone (c1 c2 : Z) :
  1 <= c2 <= 1000000 -> c2 < c1 -> c1 < 2 ^ 63 ->
  string_ltb (sortText c1) (sortText c2) = true.
Proof.
  intros H2 H12 H1.
  assert (forall c, 1 <= c <= 1000000 -> sortText c = key6 (1000000 - c))
    as Hkey.
  { intros c Hc. unfold sortText, padLen. rewrite int64_id by lia.
    apply padStart_FormatInt. lia. }
  rewrite (Hkey c2 H2).
  destruct (Z_le_gt_dec c1 1000000) as [Hle|Hgt].
  - rewrite Hkey by lia. apply key6_lt; lia.
  - apply sortText_beyond; lia.
Qed.

(** C4 as stated fails beyond the constant: with counts 1000002 and
    1000001 the keys are [0000-2] and [0000-1], in the wrong order. *)
Lemma sortText_not_monotone :
  1000002 > 1000001
  /\ sortText 1000002 = "0000-2"
  /\ sortText 1000001 = "0000-1"
  /\ string_ltb (sortText 1000002) (sortText 1000001) = false.
Proof. repeat split; vm_compute; reflexivity. Qed.

(** C4 on the counts 1000002 and 5, and on 2 and 1. *)
Lemma sortText_monotone_witness :
  string_ltb (sortText 1000002) (sortText 5) = true
  /\ string_ltb (sortText 2) (sortText 1) = true.
Proof.
  split.
  - apply (sortText_monotone 1000002 5); lia.
  - apply (sortText_monotone 2 1); lia.
Defined.

Section History.

Context {U : UnicodeTables}.

Lemma Handle_files (g g' : Globals) (req : Request) (out : list Event)
    (u : string) :
  Handle g req = Returned g' out -> ~ names u req ->
  files g' !! u = files g !! u.
Proof.
  intros H Hu. unfold names in Hu.
  unfold Handle in H;
  repeat match type of H with
         | (if String.eqb ?m ?s then _ else _) = _ =>
           let E := fresh "Hm" in
           destruct (String.eqb_spec m s) as [E|E]
         end;
    try (injection H as <- _; reflexivity); try discriminate.
  - unfold didChange in H.
    destruct (getURI req) as [[u'|err]|], (Params req) as [raw|];
      try discriminate; try (injection H as <- _; reflexivity).
    destruct (contentChanges_text raw) as [[|text rest]|err];
      try discriminate; injection H as <- _; [|reflexivity].
    unfold store. cbn [files]. apply lookup_insert_ne.
    intros ->. tauto.
  - unfold didOpen in H.
    destruct (getURI req) as [[u'|err]|], (Params req) as [raw|];
      try discriminate; try (injection H as <- _; reflexivity).
    destruct (textDocument_text raw) as [text|err];
      injection H as <- _; [|reflexivity].
    unfold store. cbn [files]. apply lookup_insert_ne.
    intros ->. tauto.
  - unfold completion in H.
    destruct (getURI req) as [[u'|err]|], (Params req) as [raw|];
      try discriminate; try (injection H as <- _; reflexivity).
    destruct (files g !! u') as [file|]; [|injection H as <- _; reflexivity].
    destruct (position raw) as [[Line Character]|err];
      injection H as <- _; reflexivity.
Qed.

Lemma serve_files (reqs : list Request) (g g' : Globals) (u : string) :
  serve g reqs = Some g' ->
  Forall (fun req => ~ names u req) reqs ->
  files g' !! u = files g !! u.
Proof.
  revert g. induction reqs as [|req reqs IH]; intros g H Hall; simpl in H.
  - now injection H as <-.
  - apply Forall_cons in Hall as [Hreq Hall].
    destruct (Handle g req) as [g1 out| |] eqn:Hh; try discriminate.
    rewrite (IH g1 H Hall). exact (Handle_files g g1 req out u Hh Hreq).
Qed.

(** C7. When no [didOpen] or [didChange] handled since [main] named the
    URI, the store has no record for it, and a completion request for it
    sends one log notification, no reply of either kind, and returns with
    the globals as they were. *)
Theorem completion_of_unopened_file (reqs : list Request) (g : Globals)
    (req : Request) (raw : RawMessage) (u : string) :
  serve main reqs = Some g ->
  Forall (fun r => ~ names u r) reqs ->
  Method req = "textDocument/completion" ->
  Params req = Some raw ->
  textDocument_uri raw = Decoded u ->
  files g !! u = None
  /\ Handle g req = Returned g [log "FILE NOT OPEN"].
Proof.
  intros Hs Hall Hm Hp Hu.
  assert (files g !! u = None) as Hnone.
  { rewrite (serve_files reqs main g u Hs Hall). apply lookup_empty. }
  split; [assumption|].
  rewrite Handle_completion by assumption.
  unfold completion, getURI. now rewrite Hp, Hu, Hnone.
Qed.

End History.

(** ** The scenario [cat cat dog] *)

Section Scenario.

Context {U : UnicodeTables}.

Lemma completion_of_stored (g : Globals) (text : string) (id : ID)
    (Line Character : Z) :
  let g' := store g a_py text in
  let file := {| uri := a_py; content := text;
                 words := getWords (defaultCompletions g) text |} in
  let s := cursor text Line Character in
  Handle g' (completion_request id a_py Line Character)
  = Returned g'
      [log (leadups (leadup s) +:+ tocomplete s);
       Reply id (CompletionList false
                   (completionItems file (defaultCompletions g) (tocomplete s)))].
Proof.
  intros g' file s. rewrite Handle_completion by reflexivity.
  unfold completion, getURI.
  cbn [Params completion_request completion_params textDocument_uri position].
  unfold g'. rewrite store_lookup. reflexivity.
Qed.

Lemma keyword_items (file : OpenFile) (p k : string) :
  k ∈ defs -> k <> p ->
  item k 11 ∈ completionItems file (defaultCompletions main) p.
Proof.
  intros Hk Hp. apply completionItems_spec. exists k, 11.
  rewrite main_keyword. destruct (decide (k ∈ defs)); tauto.
Qed.

(** C5, as the code has it.  After [didOpen] with the text [cat cat dog],
    a completion request at the end of the text (line 0, character 11)
    resolves [tocomplete = dog]: the reply offers [cat] with key 999998
    and every keyword with key 999989, ranked before [cat], and no item
    labelled [dog].  A request at line 0, character 0 resolves the empty
    word: the reply offers [cat] (999998) and [dog] (999999), [cat]
    ranked before [dog], and every keyword (999989) ranked before both. *)
Theorem cat_cat_dog :
  let g := store main a_py "cat cat dog" in
  Handle main (didOpen_request a_py "cat cat dog") = Returned g []
  /\ (exists items,
        Handle g (completion_request (IDNum 1) a_py 0 11)
        = Returned g [log "dog"; Reply (IDNum 1) (CompletionList false items)]
        /\ item "cat" 2 ∈ items
        /\ SortText (item "cat" 2) = "999998"
        /\ (forall it, it ∈ items -> Label it <> "dog")
        /\ forall k, k ∈ defs ->
             item k 11 ∈ items
             /\ SortText (item k 11) = "999989"
             /\ ranked_before (item k 11) (item "cat" 2))
  /\ (exists items,
        Handle g (completion_request (IDNum 1) a_py 0 0)
        = Returned g [log EmptyString;
                      Reply (IDNum 1) (CompletionList false items)]
        /\ item "cat" 2 ∈ items
        /\ item "dog" 1 ∈ items
        /\ SortText (item "cat" 2) = "999998"
        /\ SortText (item "dog" 1) = "999999"
        /\ ranked_before (item "cat" 2) (item "dog" 1)
        /\ forall k, k ∈ defs ->
             item k 11 ∈ items
             /\ SortText (item k 11) = "999989"
             /\ ranked_before (item k 11) (item "cat" 2)
             /\ ranked_before (item k 11) (item "dog" 1)).
Proof.
  intros g.
  assert (getWords (defaultCompletions main) "cat cat dog" !! "cat" = Some 2
          /\ getWords (defaultCompletions main) "cat cat dog" !! "dog" = Some 1)
    as [Hcat Hdog].
  { rewrite (@getWords_ascii U) by (vm_compute; reflexivity).
    split; vm_compute; reflexivity. }
  assert (cursor "cat cat dog" 0 11
          = {| curline := 0; line_pos := 11; curword := "dog";
               tocomplete := "dog"; leadup := [] |}) as Hend.
  { rewrite (@cursor_ascii U) by (vm_compute; reflexivity).
    vm_compute. reflexivity. }
  assert (cursor "cat cat dog" 0 0
          = {| curline := 0; line_pos := 11; curword := "dog";
               tocomplete := EmptyString; leadup := [] |}) as Hstart.
  { rewrite (@cursor_ascii U) by (vm_compute; reflexivity).
    vm_compute. reflexivity. }
  assert (forall k, k ∈ defs -> k <> "dog" /\ k <> EmptyString) as Hdefs.
  { intros k Hk. split; intros ->; revert Hk;
      apply (bool_decide_eq_false_1 (_ ∈ defs)); vm_compute; reflexivity. }
  split; [|split].
  - rewrite Handle_didOpen by reflexivity. reflexivity.
  - eexists. split.
    + unfold g. rewrite completion_of_stored, Hend. reflexivity.
    + cbn [tocomplete]. repeat split.
      * apply completionItems_spec. exists "cat", 2. cbn [words].
        split; [now left|]. split; [discriminate|reflexivity].
      * intros it Hit Hl.
        apply completionItems_spec in Hit as (k & v & _ & Hk & ->).
        now apply Hk.
      * apply keyword_items; [assumption|]. now apply Hdefs.
  - eexists. split.
    + unfold g. rewrite completion_of_stored, Hstart. reflexivity.
    + cbn [tocomplete]. repeat split.
      * apply completionItems_spec. exists "cat", 2. cbn [words].
        split; [now left|]. split; [discriminate|reflexivity].
      * apply completionItems_spec. exists "dog", 1. cbn [words].
        split; [now left|]. split; [discriminate|reflexivity].
      * apply keyword_items; [assumption|]. now apply Hdefs.
Qed.

End Scenario.

(** ** Instances on ASCII texts *)

(** C5 as stated fails at the end of the text: the request at line 0,
    character 11 of [cat cat dog] logs the word [dog], which is not the
    empty word, and its reply has no item labelled [dog]. *)
Lemma end_of_text_resolves_dog :
  tocomplete (@cursor ascii_tables "cat cat dog" 0 11) = "dog"
  /\ "dog" <> EmptyString
  /\ exists items,
       @Handle ascii_tables (@store ascii_tables main a_py "cat cat dog")
         (completion_request (IDNum 1) a_py 0 11)
       = Returned (@store ascii_tables main a_py "cat cat dog")
           [log "dog"; Reply (IDNum 1) (CompletionList false items)]
       /\ Forall (fun it => Label it <> "dog") items.
Proof.
  assert (tocomplete (@cursor ascii_tables "cat cat dog" 0 11) = "dog") as Hc.
  { vm_compute. reflexivity. }
  split; [exact Hc|]. split; [discriminate|].
  eexists. split.
  - rewrite (@completion_of_stored ascii_tables).
    replace (leadup (@cursor ascii_tables "cat cat dog" 0 11)) with (@nil string)
      by (vm_compute; reflexivity).
    rewrite Hc. reflexivity.
  - apply Forall_forall. intros it Hit.
    apply completionItems_spec in Hit as (k & v & _ & Hk & ->).
    exact Hk.
Qed.

(** C1 on a run: a [didOpen], then a [didChange] with two entries. *)
Lemma frequencies_are_tokenization_witness :
  @consistent ascii_tables (@store ascii_tables main a_py "cat cat dog")
  /\ exists g',
       @Handle ascii_tables main (didChange_request a_py ["cat cat dog"; "x"])
       = Returned g' []
       /\ files g' !! a_py
          = Some {| uri := a_py; content := "cat cat dog";
                    words := @getWords ascii_tables (defaultCompletions main)
                               "cat cat dog" |}.
Proof.
  destruct (@frequencies_are_tokenization ascii_tables) as (Hreach & _ & Hput).
  split.
  - apply (Hreach [didOpen_request a_py "cat cat dog"]). reflexivity.
  - apply (Hput main _ (change_params a_py ["cat cat dog"; "x"])).
    + reflexivity.
    + reflexivity.
    + right. split; [reflexivity|]. exists ["x"]. reflexivity.
Defined.

(** C3 on the completion request at line 0, character 3 of [cat cat dog]. *)
Lemma completion_excludes_partial_witness :
  exists raw u file Line Character,
    Method (completion_request (IDNum 7) a_py 0 3) = "textDocument/completion"
    /\ Params (completion_request (IDNum 7) a_py 0 3) = Some raw
    /\ textDocument_uri raw = Decoded u
    /\ files (@store ascii_tables main a_py "cat cat dog") !! u = Some file
    /\ position raw = Decoded (Line, Character)
    /\ forall it,
         it ∈ completionItems
                {| uri := a_py; content := "cat cat dog";
                   words := @getWords ascii_tables (defaultCompletions main)
                              "cat cat dog" |}
                (defaultCompletions main)
                (tocomplete (@cursor ascii_tables "cat cat dog" 0 3)) ->
         Label it <> tocomplete (@cursor ascii_tables (content file) Line Character).
Proof.
  eapply (@completion_excludes_partial ascii_tables).
  - apply (@completion_of_stored ascii_tables).
  - right. left.
Defined.

(** C7 on a request for [b.py] when only [a.py] was opened. *)
Lemma completion_of_unopened_file_witness :
  files (@store ascii_tables main a_py "cat") !! "file:///b.py" = None
  /\ @Handle ascii_tables (@store ascii_tables main a_py "cat")
       (completion_request (IDNum 2) "file:///b.py" 0 0)
     = Returned (@store ascii_tables main a_py "cat") [log "FILE NOT OPEN"].
Proof.
  apply (@completion_of_unopened_file ascii_tables
           [didOpen_request a_py "cat"] _ _
           (completion_params "file:///b.py" 0 0)).
  - reflexivity.
  - constructor; [|constructor].
    intros [_ H]. discriminate H.
  - reflexivity.
  - reflexivity.
  - reflexivity.
Defined.

(** C8 on the method [foo/bar]. *)
Lemma unknown_method_not_found_witness :
  exists message,
    @Handle ascii_tables main
      {| Method := "foo/bar"; req_ID := IDNum 3; Params := None |}
    = Returned main [ReplyWithError (IDNum 3) CodeMethodNotFound message]
    /\ substring "foo/bar" message.
Proof.
  apply (@unknown_method_not_found ascii_tables main
           {| Method := "foo/bar"; req_ID := IDNum 3; Params := None |}).
  unfold recognized. cbn [Method]. rewrite !elem_of_cons.
  intros H. repeat (destruct H as [H|H]; [discriminate H|]). inversion H.
Defined.

(** C9 on a [didChange] with the two entries [cat] and [dog]. *)
Lemma didChange_first_entry_witness :
  (["cat"; "dog"] <> [] ->
   exists text rest g',
     ["cat"; "dog"] = text :: rest
     /\ @Handle ascii_tables main (didChange_request a_py ["cat"; "dog"])
        = Returned g' []
     /\ g' = @store ascii_tables main a_py text
     /\ files g' !! a_py
        = Some {| uri := a_py; content := text;
                  words := @getWords ascii_tables (defaultCompletions main)
                             text |}
     /\ (forall u', u' <> a_py -> files g' !! u' = files main !! u')
     /\ defaultCompletions g' = defaultCompletions main)
  /\ (@Handle ascii_tables main (didChange_request a_py ["cat"; "dog"]) = Panicked
      <-> ["cat"; "dog"] = []).
Proof.
  apply (@didChange_first_entry ascii_tables main _
           (change_params a_py ["cat"; "dog"]) a_py); reflexivity.
Defined.

(** * More of the program *)

(** ** Bytes, runes and buffers *)

Lemma DecodeRuneInString_ascii (b : ascii) (rest : string) :
  byteZ b < 0x80 -> DecodeRuneInString (String b rest) = (byteZ b, 1%nat).
Proof.
  intros H. unfold DecodeRuneInString, byte_at. cbn [String.get fmap option_fmap option_map].
  unfold first. destruct (Z.ltb_spec (byteZ b) 0x80); [reflexivity|lia].
Qed.

Lemma range_string_ascii (s : string) :
  ascii_string s = true ->
  range_string s = List.map byteZ (list_ascii_of_string s).
Proof.
  unfold range_string, ascii_string.
  induction s as [|b s IH]; intros H; simpl in *; [reflexivity|].
  apply andb_true_iff in H as [Hb Hs]. apply Z.ltb_lt in Hb.
  rewrite DecodeRuneInString_ascii by assumption. simpl.
  now rewrite IH.
Qed.

Lemma range_from_length (s : string) (skip : nat) :
  (length (range_from skip s) <= String.length s)%nat.
Proof.
  revert skip. induction s as [|b s IH]; intros skip; simpl; [lia|].
  destruct skip as [|k].
  - destruct (DecodeRuneInString (String b s)) as [c w]. simpl.
    specialize (IH (Nat.pred w)). lia.
  - specialize (IH k). lia.
Qed.

Lemma byteZ_range (b : ascii) : 0 <= byteZ b < 256.
Proof.
  unfold byteZ. pose proof (N_ascii_bounded b). lia.
Qed.

Lemma string_of_rune_byte (b : ascii) :
  byteZ b < 0x80 -> string_of_rune (byteZ b) = String b EmptyString.
Proof.
  intros H. pose proof (byteZ_range b) as Hb. unfold string_of_rune.
  destruct (Z.leb_spec 0 (byteZ b)); [|lia].
  destruct (Z.leb_spec (byteZ b) 0x7F); [|lia].
  cbn [andb]. f_equal. unfold byte_of, byteZ.
  rewrite N2Z.id. apply ascii_N_embedding.
Qed.

Lemma append_nonempty (s t : string) :
  t <> EmptyString -> s +:+ t <> EmptyString.
Proof.
  intros Ht. destruct s as [|a s]; [exact Ht|].
  change (String a s +:+ t) with (String a (s +:+ t)). discriminate.
Qed.

Lemma string_of_rune_nonempty (c : rune) : string_of_rune c <> EmptyString.
Proof.
  unfold string_of_rune.
  repeat match goal with
         | |- context [if ?b then _ else _] => destruct b
         end; discriminate.
Qed.

Lemma append_runes_app (cw : string) (l1 l2 : list rune) :
  append_runes cw (l1 ++ l2)%list = append_runes (append_runes cw l1) l2.
Proof. unfold append_runes. apply foldl_app. Qed.

Lemma append_runes_bytes (cw : string) (bs : list ascii) :
  Forall (fun b => byteZ b < 0x80) bs ->
  append_runes cw (List.map byteZ bs) = cw +:+ string_of_list_ascii bs.
Proof.
  revert cw. induction bs as [|b bs IH]; intros cw H; simpl.
  - induction cw as [|a cw IHcw]; [reflexivity|].
    change (String a cw +:+ EmptyString) with (String a (cw +:+ EmptyString)).
    now rewrite <- IHcw.
  - apply Forall_cons in H as [Hb Hbs].
    unfold append_runes in *. simpl. rewrite IH by assumption.
    rewrite string_of_rune_byte by assumption.
    clear. induction cw as [|a cw IHcw]; [reflexivity|].
    change (String a cw +:+ String b EmptyString)
      with (String a (cw +:+ String b EmptyString)).
    change (String a cw +:+ String b (string_of_list_ascii bs))
      with (String a (cw +:+ String b (string_of_list_ascii bs))).
    change (String a (cw +:+ String b EmptyString) +:+ string_of_list_ascii bs)
      with (String a ((cw +:+ String b EmptyString) +:+ string_of_list_ascii bs)).
    now rewrite IHcw.
Qed.

(** ** More on [getWords] *)

Section TokenizerMore.

Context {U : UnicodeTables}.

Lemma getWords_loop_app (dc : gmap string Z) (l1 l2 : list rune)
    (words : gmap string Z) (cw : string) :
  getWords_loop dc (l1 ++ l2)%list words cw
  = getWords_loop dc l2 (fst (getWords_loop dc l1 words cw))
      (snd (getWords_loop dc l1 words cw)).
Proof.
  revert words cw. induction l1 as [|c l1 IH]; intros words cw; simpl.
  - reflexivity.
  - destruct (isWordRune c); apply IH.
Qed.

(** A word is left in the buffer only by a text that ends in a word rune. *)
Lemma trailing_ends_in_word (dc : gmap string Z) (cs : list rune)
    (words : gmap string Z) :
  snd (getWords_loop dc cs words EmptyString) <> EmptyString ->
  exists cs' c, cs = (cs' ++ [c])%list /\ isWordRune c = true.
Proof.
  destruct cs as [|c0 cs0] using rev_ind; [simpl; congruence|].
  clear IHcs0. rewrite getWords_loop_app. simpl.
  destruct (isWordRune c0) eqn:Hc; simpl; [eauto|congruence].
Qed.

(** X1. A key of [getWords(text)] is never the empty string, and a key
    with a non-zero weight in the keyword table can only be the word left
    in the buffer at the end of a text whose last rune is a word rune: a
    text that ends in a delimiter has no keyword among its keys. *)
Theorem keyword_key_only_trailing (dc : gmap string Z) (text k : string) :
  is_Some (getWords dc text !! k) ->
  k <> EmptyString
  /\ (index dc k <> 0 ->
      k = trailing dc text
      /\ exists cs c, range_string text = (cs ++ [c])%list
                      /\ isWordRune c = true).
Proof.
  intros Hk. destruct (getWords_keys dc text k Hk) as [Hne [Hz| ->]].
  - split; [assumption|]. intros Hnz. contradiction.
  - split; [assumption|]. intros _. split; [reflexivity|].
    apply (trailing_ends_in_word dc _ ∅). exact Hne.
Qed.

Lemma pending_append (cw : string) (c : rune) :
  pending (cw +:+ string_of_rune c) = 1.
Proof.
  unfold pending.
  destruct (String.eqb_spec (cw +:+ string_of_rune c) EmptyString) as [H|_];
    [|reflexivity].
  exfalso. revert H. apply append_nonempty, string_of_rune_nonempty.
Qed.

Lemma pending_bounds (cw : string) : 0 <= pending cw <= 1.
Proof. unfold pending. destruct (String.eqb cw EmptyString); lia. Qed.

Lemma count_counted (n : Z) (words : gmap string Z) (cw : string) :
  n < 2 ^ 63 -> cw <> EmptyString ->
  counted n words cw -> counted n (count words cw) EmptyString.
Proof.
  intros Hn Hcw [Hp Hw].
  assert (pending cw = 1) as Hp1.
  { unfold pending. now destruct (String.eqb_spec cw EmptyString). }
  rewrite Hp1 in *. split; change (pending EmptyString) with 0; [lia|].
  intros k v. unfold count, index.
  destruct (decide (cw = k)) as [<-|Hk].
  - rewrite lookup_insert_eq. intros [= <-].
    destruct (words !! cw) as [v|] eqn:Hv; simpl.
    + specialize (Hw cw v Hv). rewrite int64_id; lia.
    + rewrite int64_id; lia.
  - rewrite lookup_insert_ne by assumption. intros Hv.
    specialize (Hw k v Hv). lia.
Qed.

Lemma getWords_loop_counted (dc : gmap string Z) (cs : list rune) (n : Z)
    (words : gmap string Z) (cw : string) :
  n + Z.of_nat (length cs) < 2 ^ 63 ->
  counted n words cw ->
  counted (n + Z.of_nat (length cs))
    (fst (getWords_loop dc cs words cw)) (snd (getWords_loop dc cs words cw)).
Proof.
  revert n words cw.
  induction cs as [|c cs IH]; intros n words cw Hn Hw; simpl length in *.
  - simpl. now rewrite Z.add_0_r.
  - cbn [getWords_loop].
    replace (n + Z.of_nat (S (length cs)))
      with ((n + 1) + Z.of_nat (length cs)) in * by lia.
    pose proof (pending_bounds cw) as Hpb.
    destruct (isWordRune c).
    + apply IH; [assumption|]. destruct Hw as [Hp Hw].
      unfold counted. rewrite pending_append. split; [lia|].
      intros k v Hv. specialize (Hw k v Hv). lia.
    + apply IH; [assumption|].
      destruct (String.eqb_spec cw EmptyString) as [->|Hne]; cbn [negb andb].
      * destruct Hw as [Hp Hw]. split; [lia|].
        intros k v Hv. specialize (Hw k v Hv). lia.
      * assert (counted (n + 1) (count words cw) EmptyString) as Hc.
        { apply count_counted; [lia|assumption|].
          destruct Hw as [Hp Hw]. split; [lia|].
          intros k v Hv. specialize (Hw k v Hv). lia. }
        destruct (index dc cw =? 0); [exact Hc|].
        destruct Hw as [Hp Hw], Hc as [Hc _]. split; [exact Hc|].
        change (pending EmptyString) with 0.
        intros k v Hv. specialize (Hw k v Hv). lia.
Qed.

(** X2. Every count of [getWords(text)] is at least 1 and at most the
    length of the text, a Go string being shorter than [2^63] bytes. *)
Theorem getWords_counts (dc : gmap string Z) (text k : string) (v : Z) :
  len text < 2 ^ 63 ->
  getWords dc text !! k = Some v ->
  1 <= v <= len text.
Proof.
  intros Hlen. unfold getWords.
  pose proof (range_from_length text 0) as Hr. fold (range_string text) in Hr.
  assert (Z.of_nat (length (range_string text)) <= len text) as Hr'
    by (unfold len; lia).
  pose proof (getWords_loop_counted dc (range_string text) 0 ∅ EmptyString)
    as Hc.
  destruct (getWords_loop dc (range_string text) ∅ EmptyString)
    as [words cw]. cbn [fst snd] in Hc.
  assert (counted (0 + Z.of_nat (length (range_string text))) words cw) as Hw.
  { apply Hc; [lia|]. split; [change (pending EmptyString) with 0; lia|].
    intros k' v' Hv'. now rewrite lookup_empty in Hv'. }
  clear Hc. rewrite Z.add_0_l in Hw.
  destruct (String.eqb_spec cw EmptyString) as [->|Hne]; cbn [negb].
  - intros Hv. destruct Hw as [_ Hw]. specialize (Hw k v Hv).
    change (pending EmptyString) with 0 in Hw. lia.
  - intros Hv.
    apply count_counted in Hw as [_ Hc]; [|lia|assumption].
    specialize (Hc k v Hv). change (pending EmptyString) with 0 in Hc. lia.
Qed.

(** X3. A text without a single word rune tokenizes to the empty map;
    the empty text is one. *)
Theorem getWords_no_word_rune (dc : gmap string Z) (text : string) :
  Forall (fun c => isWordRune c = false) (range_string text) ->
  getWords dc text = ∅.
Proof.
  intros H. unfold getWords.
  assert (forall cs words,
            Forall (fun c => isWordRune c = false) cs ->
            getWords_loop dc cs words EmptyString = (words, EmptyString))
    as Hloop.
  { induction cs as [|c cs IH]; intros words Hcs; simpl; [reflexivity|].
    apply Forall_cons in Hcs as [Hc Hcs]. rewrite Hc. simpl.
    now apply IH. }
  rewrite Hloop by assumption. reflexivity.
Qed.

(** X4. An ASCII text made of word runes only, with no delimiter at all,
    tokenizes to the single entry that counts the whole text once, whether
    or not the text is a keyword. *)
Theorem getWords_single_word (dc : gmap string Z) (text : string) :
  text <> EmptyString ->
  ascii_string text = true ->
  Forall (fun b => isWordRune (byteZ b) = true) (list_ascii_of_string text) ->
  getWords dc text = {[ text := 1 ]}.
Proof.
  intros Hne Hascii Hword. unfold getWords.
  rewrite range_string_ascii by assumption.
  assert (forall bs words cw,
            Forall (fun b => isWordRune (byteZ b) = true) bs ->
            getWords_loop dc (List.map byteZ bs) words cw
            = (words, append_runes cw (List.map byteZ bs))) as Hloop.
  { induction bs as [|b bs IH]; intros words cw Hbs; simpl; [reflexivity|].
    apply Forall_cons in Hbs as [Hb Hbs]. rewrite Hb. now apply IH. }
  rewrite Hloop by assumption.
  rewrite append_runes_bytes.
  - change (EmptyString +:+ ?s) with s.
    rewrite string_of_list_ascii_of_string.
    destruct (String.eqb_spec text EmptyString) as [He|_]; [contradiction|].
    reflexivity.
  - unfold ascii_string in Hascii. rewrite forallb_forall in Hascii.
    apply Forall_forall. intros b Hb. apply Z.ltb_lt, Hascii.
    now apply list_elem_of_In.
Qed.

End TokenizerMore.

(** ** More on [padStart] and the sort key *)

(** X5. [padStart] returns [s] itself when [s] already has the length
    asked for; with a non-empty [pad] it returns [pad] put in front of [s]
    the least number of times that brings the length to [length] or
    beyond. *)
Theorem padStart_least_rounds (s pad : string) (length : Z) :
  (length <= len s -> padStart s pad length = s)
  /\ (pad <> EmptyString ->
      exists k : nat,
        padStart s pad length = Nat.iter k (String.append pad) s
        /\ length <= len (padStart s pad length)
        /\ forall j : nat,
             (j < k)%nat -> len (Nat.iter j (String.append pad) s) < length).
Proof.
  split.
  - intros H. unfold padStart.
    replace (Z.to_nat (length - len s)) with 0%nat by lia. reflexivity.
  - intros Hpad.
    destruct (padStart_loop_rounds (Z.to_nat (length - len s)) s pad length)
      as (k & Hk & Hless); [assumption|lia|].
    exists k. split; [exact Hk|]. split; [|exact Hless].
    pose proof (padStart_exit s pad length Hpad). lia.
Qed.

Lemma string_ltb_asym (s t : string) :
  string_ltb s t = true -> string_ltb t s = false.
Proof.
  revert t. induction s as [|a s IH]; intros [|b t]; simpl; try congruence.
  destruct (Z.ltb_spec (byteZ a) (byteZ b)) as [Hab|Hab].
  - intros _. destruct (Z.ltb_spec (byteZ b) (byteZ a)); [lia|].
    destruct (Z.eqb_spec (byteZ b) (byteZ a)); [lia|reflexivity].
  - destruct (Z.eqb_spec (byteZ a) (byteZ b)) as [He|Hne]; [|discriminate].
    intros Hs. rewrite He, Z.ltb_irrefl, Z.eqb_refl. now apply IH.
Qed.

Lemma string_ltb_irrefl (s : string) : string_ltb s s = false.
Proof.
  destruct (string_ltb s s) eqn:H; [|reflexivity].
  now rewrite (string_ltb_asym s s H) in H.
Qed.

(** X6. For a count between 1 and 1000000 the sort key is exactly the six
    decimal digits of 1000000 minus the count, leading zeros included; on
    such counts the keys are in the byte-wise order exactly when the counts
    are in the opposite order, and equal exactly when the counts are. *)
Theorem sortText_six_digits (c1 c2 : Z) :
  1 <= c1 <= 1000000 -> 1 <= c2 <= 1000000 ->
  sortText c1 = key6 (1000000 - c1)
  /\ len (sortText c1) = 6
  /\ (string_ltb (sortText c1) (sortText c2) = true <-> c2 < c1)
  /\ (sortText c1 = sortText c2 <-> c1 = c2).
Proof.
  intros H1 H2.
  assert (forall c, 1 <= c <= 1000000 -> sortText c = key6 (1000000 - c))
    as Hkey.
  { intros c Hc. unfold sortText, padLen. rewrite int64_id by lia.
    apply padStart_FormatInt. lia. }
  assert (forall a b, 1 <= a <= 1000000 -> 1 <= b <= 1000000 -> b < a ->
            string_ltb (sortText a) (sortText b) = true) as Hlt.
  { intros a b Ha Hb Hab. rewrite !Hkey by assumption. apply key6_lt; lia. }
  split; [now apply Hkey|]. split; [now rewrite Hkey|].
  split; split.
  - intros Hs. destruct (Z.lt_trichotomy c2 c1) as [Hc|[Hc|Hc]].
    + assumption.
    + subst. now rewrite string_ltb_irrefl in Hs.
    + apply (Hlt c2 c1 H2 H1), string_ltb_asym in Hc. congruence.
  - now apply Hlt.
  - intros Hs. destruct (Z.lt_trichotomy c2 c1) as [Hc|[Hc|Hc]].
    + apply (Hlt c1 c2 H1 H2) in Hc.
      rewrite Hs, string_ltb_irrefl in Hc. discriminate.
    + now symmetry.
    + apply (Hlt c2 c1 H2 H1) in Hc.
      rewrite Hs, string_ltb_irrefl in Hc. discriminate.
  - now intros ->.
Qed.

(** ** More on the cursor scan *)

Section CursorMore.

Context {U : UnicodeTables}.

Lemma cursor_loop_no_capture (Line Character : Z) (cs : list rune) (s : Cursor) :
  Character <= 0 -> 0 <= line_pos s ->
  tocomplete (cursor_loop Line Character cs s) = tocomplete s
  /\ 0 <= line_pos (cursor_loop Line Character cs s).
Proof.
  intros HC. revert s.
  induction cs as [|c cs IH]; intros s Hp; cbn [cursor_loop]; [auto|].
  destruct (Z.eqb_spec (line_pos s + 1) Character) as [He|_]; [lia|].
  rewrite andb_false_r.
  destruct (c =? 10).
  - cbn [curline]. destruct (curline s + 1 >? Line); cbn;
      [split; [reflexivity|lia]|].
    match goal with
    | |- context [cursor_loop _ _ cs ?s'] => destruct (IH s') as [Ht Hl]
    end; [cbn; lia|]. rewrite Ht. cbn. auto.
  - destruct (curline s =? Line).
    + destruct (on_line c s) as [w l].
      match goal with
      | |- context [cursor_loop _ _ cs ?s'] => destruct (IH s') as [Ht Hl]
      end; [cbn; lia|]. rewrite Ht. cbn. auto.
    + match goal with
      | |- context [cursor_loop _ _ cs ?s'] => destruct (IH s') as [Ht Hl]
      end; [cbn; lia|]. rewrite Ht. cbn. auto.
Qed.

(** X7. A request at character 0, or at a negative character, resolves
    the empty word on every text and line: no position of the scan ever
    equals it. *)
Theorem cursor_at_character_zero (text : string) (Line Character : Z) :
  Character <= 0 -> tocomplete (cursor text Line Character) = EmptyString.
Proof.
  intros HC. unfold cursor.
  match goal with
  | |- context [cursor_loop _ _ _ ?s0] =>
    destruct (cursor_loop_no_capture Line Character (range_string text) s0 HC)
      as [Ht Hl]; [cbn; lia|]
  end.
  destruct (Z.eqb_spec
              (line_pos (cursor_loop Line Character (range_string text)
                 {| curline := 0; line_pos := 0; curword := EmptyString;
                    tocomplete := EmptyString; leadup := [] |}) + 1)
              Character) as [He|_]; [lia|].
  cbn [andb]. exact Ht.
Qed.

Lemma cursor_loop_past (Line Character : Z) (cs : list rune) (s : Cursor) :
  Line < curline s ->
  tocomplete (cursor_loop Line Character cs s) = tocomplete s
  /\ leadup (cursor_loop Line Character cs s) = leadup s
  /\ Line < curline (cursor_loop Line Character cs s).
Proof.
  revert s. induction cs as [|c cs IH]; intros s Hl; cbn [cursor_loop]; [auto|].
  destruct (Z.eqb_spec (curline s) Line) as [He|_]; [lia|]. cbn [andb].
  destruct (c =? 10).
  - cbn [curline]. destruct (Z.gtb_spec (curline s + 1) Line); [|lia].
    cbn. split; [reflexivity|]. split; [reflexivity|lia].
  - match goal with
    | |- context [cursor_loop _ _ cs ?s'] =>
      destruct (IH s') as (Ht & Hu & Hc)
    end; [cbn; lia|]. rewrite Ht, Hu. cbn. auto.
Qed.

Lemma cursor_loop_short (Line Character : Z) (cs : list rune) (s : Cursor) :
  curline s + newlines cs < Line ->
  tocomplete (cursor_loop Line Character cs s) = tocomplete s
  /\ leadup (cursor_loop Line Character cs s) = leadup s
  /\ curline (cursor_loop Line Character cs s) < Line.
Proof.
  revert s. induction cs as [|c cs IH]; intros s Hl;
    cbn [cursor_loop newlines] in *; [split; [|split]; try reflexivity; lia|].
  assert (0 <= newlines cs) as Hn.
  { clear. induction cs as [|c cs IH]; simpl; [lia|].
    destruct (c =? 10); lia. }
  destruct (Z.eqb_spec (curline s) Line) as [He|_];
    [destruct (c =? 10); lia|]. cbn [andb].
  destruct (c =? 10).
  - cbn [curline]. destruct (Z.gtb_spec (curline s + 1) Line); [lia|].
    match goal with
    | |- context [cursor_loop _ _ cs ?s'] =>
      destruct (IH s') as (Ht & Hu & Hc)
    end; [cbn; lia|]. rewrite Ht, Hu. cbn. auto.
  - match goal with
    | |- context [cursor_loop _ _ cs ?s'] =>
      destruct (IH s') as (Ht & Hu & Hc)
    end; [cbn; lia|]. rewrite Ht, Hu. cbn. auto.
Qed.

(** X8. A request for a line the text does not have, a negative line or
    one beyond the number of newlines, resolves the empty word and an
    empty [leadup]. *)
Theorem cursor_line_out_of_range (text : string) (Line Character : Z) :
  Line < 0 \/ newlines (range_string text) < Line ->
  tocomplete (cursor text Line Character) = EmptyString
  /\ leadup (cursor text Line Character) = [].
Proof.
  intros H. unfold cursor.
  set (s0 := {| curline := 0; line_pos := 0; curword := EmptyString;
                tocomplete := EmptyString; leadup := [] |}).
  assert (tocomplete (cursor_loop Line Character (range_string text) s0)
          = EmptyString
          /\ leadup (cursor_loop Line Character (range_string text) s0) = []
          /\ curline (cursor_loop Line Character (range_string text) s0)
             <> Line) as (Ht & Hu & Hc).
  { destruct H as [H|H].
    - destruct (cursor_loop_past Line Character (range_string text) s0)
        as (Ht & Hu & Hc); [exact H|]. rewrite Ht, Hu. cbn.
      split; [reflexivity|]. split; [reflexivity|lia].
    - destruct (cursor_loop_short Line Character (range_string text) s0)
        as (Ht & Hu & Hc); [exact H|]. rewrite Ht, Hu. cbn.
      split; [reflexivity|]. split; [reflexivity|lia]. }
  destruct (Z.eqb_spec
              (curline (cursor_loop Line Character (range_string text) s0))
              Line) as [He|_]; [contradiction|].
  rewrite andb_false_r. auto.
Qed.

Lemma wordy_empty : wordy EmptyString.
Proof. exists []. split; [constructor|reflexivity]. Qed.

Lemma wordy_append (w : string) (c : rune) :
  wordy w -> isWordRune c = true -> wordy (w +:+ string_of_rune c).
Proof.
  intros (cs & Hcs & ->) Hc. exists (cs ++ [c])%list. split.
  - apply Forall_app. split; [assumption|]. now constructor.
  - unfold string_of_runes. now rewrite append_runes_app.
Qed.

Lemma cursor_loop_wordy (Line Character : Z) (cs : list rune) (s : Cursor) :
  wordy_cursor s -> wordy_cursor (cursor_loop Line Character cs s).
Proof.
  revert s. induction cs as [|c cs IH]; intros s (Hw & Ht & Hl);
    cbn [cursor_loop]; [now split|].
  destruct (c =? 10).
  - assert (wordy_cursor
              {| curline := curline s + 1; line_pos := 0; curword := curword s;
                 tocomplete := if (curline s =? Line)
                                  && (line_pos s + 1 =? Character)
                               then curword s else tocomplete s;
                 leadup := leadup s |}) as Hs'.
    { split; [exact Hw|]. split; [|exact Hl]. cbn.
      destruct ((curline s =? Line) && (line_pos s + 1 =? Character));
        assumption. }
    cbn [curline]. destruct (curline s + 1 >? Line); [exact Hs'|].
    apply IH, Hs'.
  - destruct (curline s =? Line).
    + unfold on_line. destruct (isWordRune c) eqn:Hc.
      * apply IH. pose proof (wordy_append _ _ Hw Hc) as Hw'.
        split; [exact Hw'|]. split; [|exact Hl]. cbn.
        destruct (line_pos s + 1 =? Character); assumption.
      * destruct (c =? 46); apply IH.
        -- split; [apply wordy_empty|]. split; cbn.
           ++ destruct (line_pos s + 1 =? Character);
                [apply wordy_empty|assumption].
           ++ apply Forall_app. split; [assumption|]. now constructor.
        -- split; [apply wordy_empty|]. split; cbn.
           ++ destruct (line_pos s + 1 =? Character);
                [apply wordy_empty|assumption].
           ++ constructor.
    + apply IH. now split.
Qed.

(** X9. The word a request resolves and every segment of [leadup] are
    made of word runes only: each is the encoding of a sequence of runes
    that pass the test of the scan. *)
Theorem cursor_words_only (text : string) (Line Character : Z) :
  wordy (tocomplete (cursor text Line Character))
  /\ Forall wordy (leadup (cursor text Line Character)).
Proof.
  unfold cursor.
  set (s0 := {| curline := 0; line_pos := 0; curword := EmptyString;
                tocomplete := EmptyString; leadup := [] |}).
  destruct (cursor_loop_wordy Line Character (range_string text) s0)
    as (Hw & Ht & Hl).
  { split; [apply wordy_empty|]. split; [apply wordy_empty|constructor]. }
  destruct ((line_pos (cursor_loop Line Character (range_string text) s0) + 1
             =? Character)
            && (curline (cursor_loop Line Character (range_string text) s0)
                =? Line)); cbn; auto.
Qed.

End CursorMore.

(** ** The cursor scan on a line with a dotted path *)

Section CursorPath.

Context {U : UnicodeTables}.

Variables Line Character : Z.

Local Open Scope list_scope.

(** [lia] with [rune] read as [Z], so that lengths of rune lists agree. *)
Ltac rlia := unfold rune in *; lia.

Lemma word_rune_not_delimiter (c : rune) :
  isWordRune c = true -> c <> 10 /\ c <> 46.
Proof.
  intros H. split; intros ->; unfold isWordRune in H;
    rewrite IsLetter_ascii, IsDigit_ascii in H by rlia; discriminate H.
Qed.

Lemma cursor_loop_off_line (c : rune) (cs : list rune) (s : Cursor) :
  c <> 10 -> curline s <> Line ->
  cursor_loop Line Character (c :: cs) s
  = cursor_loop Line Character cs
      {| curline := curline s; line_pos := line_pos s + 1;
         curword := curword s; tocomplete := tocomplete s;
         leadup := leadup s |}.
Proof.
  intros Hc Hl. cbn [cursor_loop].
  destruct (Z.eqb_spec c 10); [contradiction|].
  destruct (Z.eqb_spec (curline s) Line); [contradiction|]. reflexivity.
Qed.

Lemma cursor_loop_on_line (c : rune) (cs : list rune) (s : Cursor) :
  c <> 10 -> curline s = Line ->
  cursor_loop Line Character (c :: cs) s
  = cursor_loop Line Character cs
      {| curline := Line; line_pos := line_pos s + 1;
         curword := fst (on_line c s);
         tocomplete := if line_pos s + 1 =? Character
                       then fst (on_line c s) else tocomplete s;
         leadup := snd (on_line c s) |}.
Proof.
  intros Hc Hl. cbn [cursor_loop].
  destruct (Z.eqb_spec c 10); [contradiction|].
  destruct (Z.eqb_spec (curline s) Line); [|contradiction].
  destruct (on_line c s) as [w l]. cbn [fst snd]. now rewrite Hl.
Qed.

Lemma cursor_loop_newline_before (cs : list rune) (s : Cursor) :
  curline s < Line ->
  cursor_loop Line Character (10 :: cs) s
  = cursor_loop Line Character cs
      {| curline := curline s + 1; line_pos := 0; curword := curword s;
         tocomplete := tocomplete s; leadup := leadup s |}.
Proof.
  intros Hl. cbn [cursor_loop]. change (10 =? 10) with true. cbn iota.
  destruct (Z.eqb_spec (curline s) Line); [rlia|]. cbn [andb curline].
  destruct (Z.gtb_spec (curline s + 1) Line); [rlia|]. reflexivity.
Qed.

Lemma skip_line (l rest : list rune) (n p : Z) (cw t : string)
    (lu : list string) :
  10 ∉ l -> n < Line ->
  cursor_loop Line Character (l ++ 10 :: rest)
    {| curline := n; line_pos := p; curword := cw; tocomplete := t;
       leadup := lu |}
  = cursor_loop Line Character rest
      {| curline := n + 1; line_pos := 0; curword := cw; tocomplete := t;
         leadup := lu |}.
Proof.
  intros Hl Hn. revert p. induction l as [|c l IH]; intros p.
  - simpl app. now rewrite cursor_loop_newline_before.
  - apply not_elem_of_cons in Hl as [Hc Hl].
    simpl app. rewrite cursor_loop_off_line; cbn [curline]; [|congruence|rlia].
    cbn. apply IH, Hl.
Qed.

Lemma skip_lines (ls : list (list rune)) (rest : list rune) (n : Z)
    (cw t : string) (lu : list string) :
  Forall (fun l => 10 ∉ l) ls ->
  n + Z.of_nat (length ls) <= Line ->
  cursor_loop Line Character
    (concat (List.map (fun l => l ++ [10]) ls) ++ rest)
    {| curline := n; line_pos := 0; curword := cw; tocomplete := t;
       leadup := lu |}
  = cursor_loop Line Character rest
      {| curline := n + Z.of_nat (length ls); line_pos := 0; curword := cw;
         tocomplete := t; leadup := lu |}.
Proof.
  intros Hls. revert n.
  induction Hls as [|l ls Hl Hls IH]; intros n Hn; simpl length in *.
  - simpl. now rewrite Z.add_0_r.
  - cbn [List.map concat]. rewrite <- !app_assoc. simpl app.
    rewrite skip_line by (assumption || rlia).
    rewrite IH by rlia. do 2 f_equal. rlia.
Qed.

Lemma scan_line_prefix (pre : list rune) (c0 : rune) (rest : list rune)
    (p : Z) (cw : string) (lu : list string) :
  10 ∉ pre -> c0 <> 10 -> isWordRune c0 = false -> c0 <> 46 ->
  p + Z.of_nat (length (pre ++ [c0])) <= Character ->
  cursor_loop Line Character ((pre ++ [c0]) ++ rest)
    {| curline := Line; line_pos := p; curword := cw;
       tocomplete := EmptyString; leadup := lu |}
  = cursor_loop Line Character rest
      {| curline := Line; line_pos := p + Z.of_nat (length (pre ++ [c0]));
         curword := EmptyString; tocomplete := EmptyString; leadup := [] |}.
Proof.
  intros Hpre Hc0 Hw Hdot. revert p cw lu.
  induction pre as [|c pre IH]; intros p cw lu Hp; simpl app.
  - rewrite cursor_loop_on_line by (assumption || reflexivity).
    unfold on_line. rewrite Hw.
    destruct (Z.eqb_spec c0 46); [contradiction|]. cbn.
    destruct (p + 1 =? Character); reflexivity.
  - apply not_elem_of_cons in Hpre as [Hc Hpre].
    rewrite cursor_loop_on_line by (congruence || reflexivity). cbn.
    rewrite length_app in Hp. simpl length in Hp.
    destruct (Z.eqb_spec (p + 1) Character) as [He|_]; [rlia|].
    rewrite (IH Hpre) by (rewrite length_app; simpl length; rlia).
    do 2 f_equal. rewrite length_app. simpl length. rlia.
Qed.

Lemma scan_segment (seg rest : list rune) (p : Z) (cw : string)
    (lu : list string) :
  word_runes seg ->
  p + Z.of_nat (length seg) + 1 <= Character ->
  cursor_loop Line Character (seg ++ 46 :: rest)
    {| curline := Line; line_pos := p; curword := cw;
       tocomplete := EmptyString; leadup := lu |}
  = cursor_loop Line Character rest
      {| curline := Line; line_pos := p + Z.of_nat (length seg) + 1;
         curword := EmptyString; tocomplete := EmptyString;
         leadup := (lu ++ [append_runes cw seg])%list |}.
Proof.
  intros Hseg. revert p cw.
  induction Hseg as [|c seg Hc Hseg IH]; intros p cw Hp; simpl app.
  - rewrite cursor_loop_on_line by (rlia || reflexivity).
    unfold on_line.
    assert (isWordRune 46 = false) as Hdot.
    { destruct (isWordRune 46) eqn:H; [|reflexivity].
      apply word_rune_not_delimiter in H. rlia. }
    rewrite Hdot. cbn.
    destruct (p + 1 =? Character); do 2 f_equal; simpl; rlia.
  - destruct (word_rune_not_delimiter c Hc) as [Hnl _].
    rewrite cursor_loop_on_line by (assumption || reflexivity).
    unfold on_line. rewrite Hc. cbn. simpl length in Hp.
    destruct (Z.eqb_spec (p + 1) Character) as [He|_]; [rlia|].
    rewrite IH by rlia. do 2 f_equal. simpl length. rlia.
Qed.

Lemma scan_path (segs : list (list rune)) (rest : list rune) (p : Z)
    (lu : list string) :
  Forall word_runes segs ->
  p + Z.of_nat (length (concat (List.map (fun seg => seg ++ [46]) segs)))
  <= Character ->
  cursor_loop Line Character
    (concat (List.map (fun seg => seg ++ [46]) segs) ++ rest)
    {| curline := Line; line_pos := p; curword := EmptyString;
       tocomplete := EmptyString; leadup := lu |}
  = cursor_loop Line Character rest
      {| curline := Line;
         line_pos := p + Z.of_nat (length (concat
                       (List.map (fun seg => seg ++ [46]) segs)));
         curword := EmptyString; tocomplete := EmptyString;
         leadup := (lu ++ List.map string_of_runes segs)%list |}.
Proof.
  intros Hsegs. revert p lu.
  induction Hsegs as [|seg segs Hseg Hsegs IH]; intros p lu Hp;
    cbn [List.map concat] in *.
  - simpl. now rewrite Z.add_0_r, app_nil_r.
  - rewrite !length_app in Hp. simpl length in Hp.
    rewrite <- !app_assoc. simpl app.
    rewrite scan_segment by (assumption || rlia).
    rewrite IH by rlia. rewrite <- app_assoc. simpl app.
    do 2 f_equal. rewrite !length_app. simpl length. rlia.
Qed.

Lemma scan_word (w rest : list rune) (p : Z) (cw t : string)
    (lu : list string) :
  word_runes w ->
  p + Z.of_nat (length w) = Character ->
  cursor_loop Line Character (w ++ rest)
    {| curline := Line; line_pos := p; curword := cw; tocomplete := t;
       leadup := lu |}
  = cursor_loop Line Character rest
      {| curline := Line; line_pos := Character;
         curword := append_runes cw w;
         tocomplete := match w with
                       | [] => t
                       | _ :: _ => append_runes cw w
                       end;
         leadup := lu |}.
Proof.
  intros Hw. revert p cw t.
  induction Hw as [|c w Hc Hw IH]; intros p cw t Hp; simpl app.
  - simpl in Hp. do 2 f_equal. rlia.
  - destruct (word_rune_not_delimiter c Hc) as [Hnl _].
    rewrite cursor_loop_on_line by (assumption || reflexivity).
    unfold on_line. rewrite Hc. cbn [fst snd curword leadup tocomplete line_pos].
    simpl length in Hp. rewrite IH by rlia.
    change (append_runes cw (c :: w))
      with (append_runes (cw +:+ string_of_rune c) w).
    do 2 f_equal. destruct w as [|c' w']; [|reflexivity].
    simpl in Hp. destruct (Z.eqb_spec (p + 1) Character); [reflexivity|rlia].
Qed.

Lemma scan_rest (cs : list rune) (s : Cursor) :
  past_cursor Line Character s ->
  tocomplete (cursor_loop Line Character cs s) = tocomplete s
  /\ past_cursor Line Character (cursor_loop Line Character cs s)
  /\ ((cs = [] \/ exists r, cs = 10 :: r) ->
      leadup (cursor_loop Line Character cs s) = leadup s).
Proof.
  revert s. induction cs as [|c cs IH]; intros s Hs.
  - simpl. auto.
  - destruct (Z.eq_dec c 10) as [->|Hc].
    + cbn [cursor_loop]. change (10 =? 10) with true. cbn iota.
      assert ((curline s =? Line) && (line_pos s + 1 =? Character) = false)
        as ->.
      { destruct Hs as [[Hl Hp]|Hl].
        - destruct (Z.eqb_spec (line_pos s + 1) Character); [rlia|].
          apply andb_false_r.
        - destruct (Z.eqb_spec (curline s) Line); [rlia|reflexivity]. }
      cbn [curline].
      destruct (Z.gtb_spec (curline s + 1) Line) as [_|Hle];
        [|unfold past_cursor in Hs; rlia].
      cbn. split; [reflexivity|]. split; [|reflexivity].
      right. cbn. unfold past_cursor in Hs. rlia.
    + destruct Hs as [[Hl Hp]|Hl].
      * rewrite cursor_loop_on_line by assumption.
        destruct (Z.eqb_spec (line_pos s + 1) Character); [rlia|].
        match goal with
        | |- context [cursor_loop _ _ cs ?s'] =>
          destruct (IH s') as (Ht & Hpast & _)
        end; [left; cbn; rlia|].
        rewrite Ht. cbn. split; [reflexivity|]. split; [exact Hpast|].
        intros [H|[r H]]; [discriminate|congruence].
      * rewrite cursor_loop_off_line by (assumption || rlia).
        match goal with
        | |- context [cursor_loop _ _ cs ?s'] =>
          destruct (IH s') as (Ht & Hpast & _)
        end; [right; cbn; rlia|].
        rewrite Ht. cbn. split; [reflexivity|]. split; [exact Hpast|].
        intros [H|[r H]]; [discriminate|congruence].
Qed.

End CursorPath.

Section CursorResolve.

Context {U : UnicodeTables}.

Local Open Scope list_scope.

(** X10. The word before the cursor.  Let the text consist of [Line]
    lines that end in a newline, then on the next line a prefix that is
    empty or ends in a rune that is neither a word rune nor a dot, then
    segments of word runes each followed by a dot, then the word runes [w],
    then anything.  A request at that line, at the character just after
    [w], resolves [w]; and when [w] ends the line or the text, [leadup]
    holds the segments in order. *)
Theorem cursor_resolves_dotted_path (text : string) (Line Character : Z)
    (ls : list (list rune)) (linepre : list rune) (segs : list (list rune))
    (w post : list rune) :
  range_string text
  = concat (List.map (fun l => l ++ [10]) ls)
    ++ linepre ++ concat (List.map (fun seg => seg ++ [46]) segs)
    ++ w ++ post ->
  Forall (fun l => 10 ∉ l) ls ->
  10 ∉ linepre ->
  (linepre = []
   \/ exists pre c, linepre = pre ++ [c] /\ isWordRune c = false /\ c <> 46) ->
  Forall word_runes segs ->
  word_runes w ->
  Line = Z.of_nat (length ls) ->
  Character
  = Z.of_nat (length linepre
              + length (concat (List.map (fun seg => seg ++ [46]) segs))
              + length w) ->
  tocomplete (cursor text Line Character) = string_of_runes w
  /\ ((post = [] \/ exists r, post = 10 :: r) ->
      leadup (cursor text Line Character) = List.map string_of_runes segs).
Proof.
  intros Htext Hls Hnl Hpre Hsegs Hw HL HC.
  unfold cursor. rewrite Htext.
  rewrite (skip_lines Line Character ls) by (assumption || lia).
  rewrite Z.add_0_l, <- HL.
  set (path := concat (List.map (fun seg => seg ++ [46]) segs)) in *.
  assert (exists p,
            p = Z.of_nat (length linepre)
            /\ cursor_loop Line Character (linepre ++ path ++ w ++ post)
                 {| curline := Line; line_pos := 0; curword := EmptyString;
                    tocomplete := EmptyString; leadup := [] |}
               = cursor_loop Line Character (path ++ w ++ post)
                   {| curline := Line; line_pos := p;
                      curword := EmptyString; tocomplete := EmptyString;
                      leadup := [] |}) as (p & Hp & ->).
  { destruct Hpre as [->|(pre & c & -> & Hc & Hdot)].
    - exists 0. split; reflexivity.
    - exists (0 + Z.of_nat (length (pre ++ [c]))). split; [lia|].
      apply not_elem_of_app in Hnl as [Hnl Hc10].
      apply scan_line_prefix; try assumption.
      + intros ->. apply Hc10. now left.
      + unfold rune in *. lia. }
  subst path.
  rewrite (scan_path Line Character segs)
    by (assumption || (unfold rune in *; lia)).
  rewrite (scan_word Line Character w) by (assumption || (unfold rune in *; lia)).
  match goal with
  | |- context [cursor_loop Line Character post ?s2] =>
    destruct (scan_rest Line Character post s2) as (Ht & Hpast & Hlu);
      [left; cbn; lia|]; set (s3 := cursor_loop Line Character post s2) in *
  end.
  assert ((line_pos s3 + 1 =? Character) && (curline s3 =? Line) = false)
    as ->.
  { destruct Hpast as [[Hl Hq]|Hl].
    - destruct (Z.eqb_spec (line_pos s3 + 1) Character); [lia|reflexivity].
    - destruct (Z.eqb_spec (curline s3) Line); [lia|]. apply andb_false_r. }
  split.
  - rewrite Ht. cbn. now destruct w.
  - intros Hpost. rewrite (Hlu Hpost). reflexivity.
Qed.

End CursorResolve.

(** ** More on [Handle] *)

(** Splits [H : Handle g req = _] into the arms of the switch. *)
Ltac switch_arms H :=
  unfold Handle in H;
  repeat match type of H with
         | (if String.eqb ?m ?s then _ else _) = _ =>
           let E := fresh "Hm" in
           destruct (String.eqb_spec m s) as [E|E]
         end.

Section HandleMore.

Context {U : UnicodeTables}.

(** What a returning call sends, and what it does to the globals. *)
Lemma Handle_shape (g g' : Globals) (req : Request) (out : list Event) :
  Handle g req = Returned g' out ->
  answer_shape req out
  /\ (g' = g
      \/ (out = [] /\ exists u text, names u req /\ g' = store g u text)).
Proof.
  intros H. switch_arms H; try discriminate;
    try (injection H as <- <-; split; [constructor|now left]).
  - unfold didChange in H. unfold names. rewrite Hm4.
    destruct (getURI req) as [[u|err]|] eqn:Hu, (Params req) as [raw|];
      try discriminate;
      try (injection H as <- <-; split; [constructor|now left]).
    destruct (contentChanges_text raw) as [[|text rest]|err];
      try discriminate; injection H as <- <-.
    + split; [constructor|]. right. split; [reflexivity|].
      exists u, text. auto.
    + split; [constructor|now left].
  - unfold didOpen in H. unfold names. rewrite Hm5.
    destruct (getURI req) as [[u|err]|] eqn:Hu, (Params req) as [raw|];
      try discriminate;
      try (injection H as <- <-; split; [constructor|now left]).
    destruct (textDocument_text raw) as [text|err]; injection H as <- <-.
    + split; [constructor|]. right. split; [reflexivity|].
      exists u, text. auto.
    + split; [constructor|now left].
  - unfold completion in H.
    destruct (getURI req) as [[u|err]|], (Params req) as [raw|];
      try discriminate;
      try (injection H as <- <-; split; [constructor|now left]).
    destruct (files g !! u) as [file|];
      [|injection H as <- <-; split; [constructor|now left]].
    destruct (position raw) as [[Line Character]|err];
      injection H as <- <-; (split; [constructor|now left]).
Qed.

(** X12. Only a [didOpen] or [didChange] that names a URI changes the
    globals, by one [store] for that URI, and such a call sends nothing;
    every other returning call leaves the globals as they were. *)
Theorem only_sync_changes_globals (g g' : Globals) (req : Request)
    (out : list Event) :
  Handle g req = Returned g' out ->
  g' <> g ->
  out = [] /\ exists u text, names u req /\ g' = store g u text.
Proof.
  intros H Hne. destruct (Handle_shape g g' req out H) as [_ [Heq|Hst]].
  - contradiction.
  - exact Hst.
Qed.

(** X13. A call of [Handle] sends at most one reply, a reply carries the
    id of the request, and whatever else it sends is a
    [window/logMessage] notification of type 4. *)
Theorem one_reply_with_request_id (g g' : Globals) (req : Request)
    (out : list Event) :
  Handle g req = Returned g' out ->
  Forall (answers req) out
  /\ (length (List.filter is_reply out) <= 1)%nat.
Proof.
  intros H. destruct (Handle_shape g g' req out H) as [Hs _].
  destruct Hs; split; repeat constructor.
Qed.

Lemma store_grows (g : Globals) (u text u' : string) :
  is_Some (files g !! u') -> is_Some (files (store g u text) !! u').
Proof.
  intros H. unfold store. cbn [files].
  apply lookup_insert_is_Some. destruct (decide (u = u')); auto.
Qed.

(** X14. The server never forgets: over any sequence of handled requests
    the keyword table stays what it was, and a URI that has a record keeps
    having one. *)
Theorem serve_keeps_records (reqs : list Request) (g g' : Globals) :
  serve g reqs = Some g' ->
  defaultCompletions g' = defaultCompletions g
  /\ forall u, is_Some (files g !! u) -> is_Some (files g' !! u).
Proof.
  revert g. induction reqs as [|req reqs IH]; intros g H; simpl in H.
  - injection H as <-. auto.
  - destruct (Handle g req) as [g1 out| |] eqn:Hh; try discriminate.
    destruct (IH g1 H) as [Hdc Hfiles].
    destruct (Handle_shape g g1 req out Hh) as [_ [->|(_ & u & text & _ & ->)]].
    + auto.
    + split; [exact Hdc|]. intros u' Hu'. apply Hfiles, store_grows, Hu'.
Qed.

Lemma store_store (g : Globals) (u t1 t2 : string) :
  store (store g u t1) u t2 = store g u t2.
Proof.
  unfold store. cbn [files defaultCompletions]. f_equal.
  apply insert_insert_eq.
Qed.

Lemma store_commute (g : Globals) (u1 u2 t1 t2 : string) :
  u1 <> u2 ->
  store (store g u1 t1) u2 t2 = store (store g u2 t2) u1 t1.
Proof.
  intros Hne. unfold store. cbn [files defaultCompletions]. f_equal.
  apply insert_insert_ne. congruence.
Qed.

Lemma Handle_writes (g : Globals) (req : Request) (u text : string) :
  writes req u text -> Handle g req = Returned (store g u text) [].
Proof.
  intros (raw & Hp & Hu & [[Hm Ht]|[Hm [rest Ht]]]).
  - rewrite Handle_didOpen by assumption.
    unfold didOpen, getURI. now rewrite Hp, Hu, Ht.
  - rewrite Handle_didChange by assumption.
    unfold didChange, getURI. now rewrite Hp, Hu, Ht.
Qed.

(** X15. Writes compose as assignments to a map: of two writes to the
    same URI only the second counts, and two writes to different URIs can
    be handled in either order. *)
Theorem writes_compose (g : Globals) (r1 r2 : Request)
    (u1 u2 t1 t2 : string) :
  writes r1 u1 t1 -> writes r2 u2 t2 ->
  (u1 = u2 -> serve g [r1; r2] = serve g [r2])
  /\ (u1 <> u2 -> serve g [r1; r2] = serve g [r2; r1]).
Proof.
  intros H1 H2. cbn [serve].
  rewrite (Handle_writes g r1 u1 t1 H1), (Handle_writes g r2 u2 t2 H2).
  rewrite (Handle_writes _ r2 u2 t2 H2), (Handle_writes _ r1 u1 t1 H1).
  split.
  - intros ->. now rewrite store_store.
  - intros Hne. now rewrite store_commute.
Qed.

(** X16. When the URI does not decode, [didOpen], [didChange] and
    completion alike log [Failed to unmarshal payload], send no reply and
    leave the globals alone, whatever the rest of the params; with no
    params at all each of the three panics. *)
Theorem uri_decode_failure (g : Globals) (req : Request) :
  Method req = "textDocument/didOpen"
  \/ Method req = "textDocument/didChange"
  \/ Method req = "textDocument/completion" ->
  (forall raw err,
     Params req = Some raw -> textDocument_uri raw = DecodeError err ->
     Handle g req = Returned g [log "Failed to unmarshal payload"])
  /\ (Params req = None -> Handle g req = Panicked).
Proof.
  intros [Hm|[Hm|Hm]]; split.
  - intros raw err Hp Hu. rewrite Handle_didOpen by assumption.
    unfold didOpen, getURI. now rewrite Hp, Hu.
  - intros Hp. rewrite Handle_didOpen by assumption.
    unfold didOpen, getURI. now rewrite Hp.
  - intros raw err Hp Hu. rewrite Handle_didChange by assumption.
    unfold didChange, getURI. now rewrite Hp, Hu.
  - intros Hp. rewrite Handle_didChange by assumption.
    unfold didChange, getURI. now rewrite Hp.
  - intros raw err Hp Hu. rewrite Handle_completion by assumption.
    unfold completion, getURI. now rewrite Hp, Hu.
  - intros Hp. rewrite Handle_completion by assumption.
    unfold completion, getURI. now rewrite Hp.
Qed.

(** X17. When the URI decodes but the rest of the params does not, the
    reply is a [CodeParseError] error whose message is a fixed prefix
    followed by the decoder's error, and the globals are left alone; for
    completion this needs the file to be stored, as the lookup comes
    first. *)
Theorem params_decode_failure (g : Globals) (req : Request)
    (raw : RawMessage) (u err : string) :
  Params req = Some raw ->
  textDocument_uri raw = Decoded u ->
  (Method req = "textDocument/didOpen" ->
   textDocument_text raw = DecodeError err ->
   Handle g req
   = Returned g [ReplyWithError (req_ID req) CodeParseError
                   ("invalid open params: " +:+ err)])
  /\ (Method req = "textDocument/didChange" ->
      contentChanges_text raw = DecodeError err ->
      Handle g req
      = Returned g [ReplyWithError (req_ID req) CodeParseError
                      ("invalid change params: " +:+ err)])
  /\ (Method req = "textDocument/completion" ->
      position raw = DecodeError err ->
      Handle g req
      = match files g !! u with
        | Some _ =>
          Returned g [ReplyWithError (req_ID req) CodeParseError
                        ("invalid completion params: " +:+ err)]
        | None => Returned g [log "FILE NOT OPEN"]
        end).
Proof.
  intros Hp Hu. split; [|split]; intros Hm Hd.
  - rewrite Handle_didOpen by assumption.
    unfold didOpen, getURI. now rewrite Hp, Hu, Hd.
  - rewrite Handle_didChange by assumption.
    unfold didChange, getURI. now rewrite Hp, Hu, Hd.
  - rewrite Handle_completion by assumption.
    unfold completion, getURI. rewrite Hp, Hu.
    destruct (files g !! u); [now rewrite Hd|reflexivity].
Qed.

End HandleMore.

(** ** More on the completion reply *)

Lemma candidates_list_length (l : list (string * Z)) (p : string)
    (items : list CompletionItem) :
  length (foldl (fun items kv =>
                   if String.eqb (fst kv) p then items
                   else (items ++ [item (fst kv) (snd kv)])%list) items l)
  = (length items + length (filter (fun kv => fst kv <> p) l))%nat.
Proof.
  revert items. induction l as [|[k v] l IH]; intros items; simpl foldl.
  - simpl. lia.
  - rewrite IH. cbn [fst snd].
    destruct (String.eqb_spec k p) as [->|Hne].
    + rewrite filter_cons_False by (cbn; tauto). reflexivity.
    + rewrite filter_cons_True by (cbn; assumption).
      rewrite length_app. simpl. lia.
Qed.

Lemma filter_key_size (m : gmap string Z) (p : string) :
  length (filter (fun kv : string * Z => fst kv <> p) (map_to_list m))
  = size (delete p m).
Proof.
  assert (forall m' : gmap string Z,
            m' !! p = None ->
            filter (fun kv : string * Z => fst kv <> p) (map_to_list m')
            = map_to_list m') as Hid.
  { intros m' Hp.
    assert (Forall (fun kv : string * Z => fst kv <> p) (map_to_list m'))
      as Hall.
    { apply Forall_forall. intros [k v] Hkv.
      apply elem_of_map_to_list in Hkv. cbn. congruence. }
    induction Hall as [|kv l Hkv Hall IH]; [reflexivity|].
    now rewrite filter_cons_True, IH. }
  destruct (m !! p) as [x|] eqn:Hp.
  - rewrite <- (map_to_list_delete m p x Hp).
    rewrite filter_cons_False by (cbn; tauto).
    rewrite Hid by apply lookup_delete_eq.
    apply length_map_to_list.
  - rewrite delete_id by assumption. rewrite Hid by assumption.
    apply length_map_to_list.
Qed.

Section Reply.

Context {U : UnicodeTables}.

(** X11. The reply to a completion request for a stored file, once the
    position decodes: one log line with the dotted lead-up and the word
    under the cursor, then one complete list.  The list offers every key
    of the file's word counts and every key of the keyword table other
    than that word, each as an item of kind 3 and format 1 whose insert
    text is its label and whose sort key comes from its count; no prefix
    filter is applied, and a key of both maps is offered twice. *)
Theorem completion_reply (g : Globals) (req : Request) (raw : RawMessage)
    (u : string) (file : OpenFile) (Line Character : Z) :
  Method req = "textDocument/completion" ->
  Params req = Some raw ->
  textDocument_uri raw = Decoded u ->
  files g !! u = Some file ->
  position raw = Decoded (Line, Character) ->
  let s := cursor (content file) Line Character in
  exists items,
    Handle g req
    = Returned g [log (leadups (leadup s) +:+ tocomplete s);
                  Reply (req_ID req) (CompletionList false items)]
    /\ (forall it,
          it ∈ items
          <-> exists k v,
                (words file !! k = Some v
                 \/ defaultCompletions g !! k = Some v)
                /\ k <> tocomplete s
                /\ it = {| Label := k; Kind := 3; InsertText := k;
                           InsertTextFmt := 1; SortText := sortText v |})
    /\ length items
       = (size (delete (tocomplete s) (words file))
          + size (delete (tocomplete s) (defaultCompletions g)))%nat.
Proof.
  intros Hm Hp Hu Hf Hpos s.
  exists (completionItems file (defaultCompletions g) (tocomplete s)).
  split; [|split].
  - rewrite Handle_completion by assumption.
    unfold completion, getURI. now rewrite Hp, Hu, Hf, Hpos.
  - intros it. apply completionItems_spec.
  - unfold completionItems, candidates.
    rewrite !candidates_list_length, !filter_key_size. simpl. lia.
Qed.

End Reply.

Section CursorPastEnd.

Context {U : UnicodeTables}.

Local Open Scope list_scope.

Lemma scan_word_short (Line Character : Z) (w rest : list rune) (p : Z)
    (cw t : string) (lu : list string) :
  word_runes w ->
  p + Z.of_nat (length w) < Character ->
  cursor_loop Line Character (w ++ rest)
    {| curline := Line; line_pos := p; curword := cw; tocomplete := t;
       leadup := lu |}
  = cursor_loop Line Character rest
      {| curline := Line; line_pos := p + Z.of_nat (length w);
         curword := append_runes cw w; tocomplete := t; leadup := lu |}.
Proof.
  intros Hw. revert p cw.
  induction Hw as [|c w Hc Hw IH]; intros p cw Hp; simpl app.
  - simpl. now rewrite Z.add_0_r.
  - destruct (word_rune_not_delimiter c Hc) as [Hnl _].
    rewrite cursor_loop_on_line by (assumption || reflexivity).
    unfold on_line. rewrite Hc.
    cbn [fst snd curword leadup tocomplete line_pos].
    simpl length in Hp.
    destruct (Z.eqb_spec (p + 1) Character) as [He|_];
      [unfold rune in *; lia|].
    rewrite IH by (unfold rune in *; lia).
    change (append_runes cw (c :: w))
      with (append_runes (cw +:+ string_of_rune c) w).
    do 2 f_equal. simpl length. unfold rune in *. lia.
Qed.

(** X18. One character past the end of a line.  With the text laid out as
    for the word before the cursor, and [w] ending its line or the text, a
    request at the character one past the end of that line resolves [w]
    all the same, with the segments in [leadup]: the newline that ends the
    line, or the test after the loop, captures the word buffer. *)
Theorem cursor_one_past_line_end (text : string) (Line Character : Z)
    (ls : list (list rune)) (linepre : list rune) (segs : list (list rune))
    (w post : list rune) :
  range_string text
  = concat (List.map (fun l => l ++ [10]) ls)
    ++ linepre ++ concat (List.map (fun seg => seg ++ [46]) segs)
    ++ w ++ post ->
  Forall (fun l => 10 ∉ l) ls ->
  10 ∉ linepre ->
  (linepre = []
   \/ exists pre c, linepre = pre ++ [c] /\ isWordRune c = false /\ c <> 46) ->
  Forall word_runes segs ->
  word_runes w ->
  post = [] \/ (exists r, post = 10 :: r) ->
  Line = Z.of_nat (length ls) ->
  Character
  = Z.of_nat (length linepre
              + length (concat (List.map (fun seg => seg ++ [46]) segs))
              + length w) + 1 ->
  tocomplete (cursor text Line Character) = string_of_runes w
  /\ leadup (cursor text Line Character) = List.map string_of_runes segs.
Proof.
  intros Htext Hls Hnl Hpre Hsegs Hw Hpost HL HC.
  unfold cursor. rewrite Htext.
  rewrite (skip_lines Line Character ls) by (assumption || lia).
  rewrite Z.add_0_l, <- HL.
  assert (exists p,
            p = Z.of_nat (length linepre)
            /\ forall rest,
                 cursor_loop Line Character (linepre ++ rest)
                   {| curline := Line; line_pos := 0; curword := EmptyString;
                      tocomplete := EmptyString; leadup := [] |}
                 = cursor_loop Line Character rest
                     {| curline := Line; line_pos := p;
                        curword := EmptyString; tocomplete := EmptyString;
                        leadup := [] |}) as (p & Hp & ->).
  { destruct Hpre as [->|(pre & c & -> & Hc & Hdot)].
    - exists 0. split; reflexivity.
    - exists (0 + Z.of_nat (length (pre ++ [c]))). split; [lia|].
      intros rest.
      apply not_elem_of_app in Hnl as [Hnl Hc10].
      apply scan_line_prefix; try assumption.
      + intros ->. apply Hc10. now left.
      + unfold rune in *. lia. }
  rewrite (scan_path Line Character segs)
    by (assumption || (unfold rune in *; lia)).
  rewrite (scan_word_short Line Character w)
    by (assumption || (unfold rune in *; lia)).
  destruct Hpost as [->|[r ->]].
  - cbn [cursor_loop line_pos curline].
    destruct (Z.eqb_spec
                (p + Z.of_nat (length
                   (concat (List.map (fun seg => seg ++ [46]) segs)))
                 + Z.of_nat (length w) + 1) Character) as [_|Hne];
      [|unfold rune in *; lia].
    rewrite Z.eqb_refl. cbn. auto.
  - cbn [cursor_loop line_pos curline]. change (10 =? 10) with true.
    cbn iota.
    destruct (Z.eqb_spec
                (p + Z.of_nat (length
                   (concat (List.map (fun seg => seg ++ [46]) segs)))
                 + Z.of_nat (length w) + 1) Character) as [_|Hne];
      [|unfold rune in *; lia].
    rewrite Z.eqb_refl. cbn [andb].
    destruct (Z.gtb_spec (Line + 1) Line); [|lia].
    cbn [line_pos curline tocomplete leadup].
    destruct (Z.eqb_spec (Line + 1) Line); [lia|].
    rewrite andb_false_r. cbn. auto.
Qed.

End CursorPastEnd.

(** ** What [main] sets up *)

(** X19. [main] leaves the document store empty and gives the weight 11
    to the words of its list and to nothing else, so that each keyword is
    offered with the sort key 999989. *)
Theorem main_globals (k : string) (v : Z) :
  files main = ∅
  /\ (defaultCompletions main !! k = Some v <-> k ∈ defs /\ v = 11)
  /\ (k ∈ defs -> SortText (item k (index (defaultCompletions main) k)) = "999989").
Proof.
  split; [reflexivity|]. split; [|intros Hk; unfold index]; rewrite main_keyword.
  - destruct (decide (k ∈ defs)); split.
    + intros [= <-]. auto.
    + intros [_ ->]. reflexivity.
    + discriminate.
    + tauto.
  - destruct (decide (k ∈ defs)); [|contradiction]. vm_compute. reflexivity.
Qed.

(** ** Instances of the further properties on ASCII texts *)

(** Decides [x ∉ l] for a list of numerals. *)
Ltac not_in_list :=
  let H := fresh in
  intros H;
  repeat (apply elem_of_cons in H as [H|H]; [discriminate H|]);
  inversion H.

(** X1 on the text [for]: its only key is a keyword and the trailing word. *)
Lemma keyword_key_only_trailing_witness :
  "for" <> EmptyString
  /\ (index (defaultCompletions main) "for" <> 0 ->
      "for" = @trailing ascii_tables (defaultCompletions main) "for"
      /\ exists cs c, range_string "for" = (cs ++ [c])%list
                      /\ @isWordRune ascii_tables c = true).
Proof.
  apply (@keyword_key_only_trailing ascii_tables).
  exists 1. vm_compute. reflexivity.
Defined.

(** X2 on the count of [cat] in [cat cat dog]. *)
Lemma getWords_counts_witness : 1 <= 2 <= len "cat cat dog".
Proof.
  apply (@getWords_counts ascii_tables (defaultCompletions main)
           "cat cat dog" "cat" 2).
  - vm_compute. reflexivity.
  - vm_compute. reflexivity.
Defined.

(** X3 on a text of dots and spaces. *)
Lemma getWords_no_word_rune_witness :
  @getWords ascii_tables (defaultCompletions main) " . ." = ∅.
Proof.
  apply (@getWords_no_word_rune ascii_tables).
  vm_compute. repeat constructor.
Defined.

(** X4 on the text [for], a keyword. *)
Lemma getWords_single_word_witness :
  @getWords ascii_tables (defaultCompletions main) "for" = {[ "for" := 1 ]}.
Proof.
  apply (@getWords_single_word ascii_tables).
  - discriminate.
  - reflexivity.
  - vm_compute. repeat constructor.
Defined.

(** X5 on [42] padded to six with zeros, and on a string long enough. *)
Lemma padStart_least_rounds_witness :
  padStart "1000000" "0" 6 = "1000000"
  /\ exists k : nat,
       padStart "42" "0" 6 = Nat.iter k (String.append "0") "42"
       /\ 6 <= len (padStart "42" "0" 6)
       /\ forall j : nat,
            (j < k)%nat -> len (Nat.iter j (String.append "0") "42") < 6.
Proof.
  split.
  - apply (proj1 (padStart_least_rounds "1000000" "0" 6)).
    vm_compute. discriminate.
  - apply (proj2 (padStart_least_rounds "42" "0" 6)). discriminate.
Defined.

(** X6 on the counts 2 and 1. *)
Lemma sortText_six_digits_witness :
  sortText 2 = key6 (1000000 - 2)
  /\ len (sortText 2) = 6
  /\ (string_ltb (sortText 2) (sortText 1) = true <-> 1 < 2)
  /\ (sortText 2 = sortText 1 <-> 2 = 1).
Proof. apply (sortText_six_digits 2 1); lia. Defined.

(** X7 at character 0 of the second line of a text. *)
Lemma cursor_at_character_zero_witness :
  tocomplete (@cursor ascii_tables ("x = 1" +:+ String "010" "foo.b") 1 0)
  = EmptyString.
Proof. apply (@cursor_at_character_zero ascii_tables). lia. Defined.

(** X8 at line 5 of a text of two lines. *)
Lemma cursor_line_out_of_range_witness :
  tocomplete (@cursor ascii_tables ("x = 1" +:+ String "010" "foo.b") 5 2)
  = EmptyString
  /\ leadup (@cursor ascii_tables ("x = 1" +:+ String "010" "foo.b") 5 2)
     = [].
Proof.
  apply (@cursor_line_out_of_range ascii_tables). right.
  vm_compute. reflexivity.
Defined.

(** X10 on the middle line of a text of three lines, with the cursor
    after [ba] at the end of [y = foo.bar.ba]. *)
Lemma cursor_resolves_dotted_path_witness :
  tocomplete (@cursor ascii_tables
                ("x = 1" +:+ String "010" ("y = foo.bar.ba" +:+ String "010" "z"))
                1 14)
  = string_of_runes [98; 97]
  /\ leadup (@cursor ascii_tables
               ("x = 1" +:+ String "010" ("y = foo.bar.ba" +:+ String "010" "z"))
               1 14)
     = List.map string_of_runes [[102; 111; 111]; [98; 97; 114]].
Proof.
  destruct (@cursor_resolves_dotted_path ascii_tables
              ("x = 1" +:+ String "010" ("y = foo.bar.ba" +:+ String "010" "z"))
              1 14
              [[120; 32; 61; 32; 49]] [121; 32; 61; 32]
              [[102; 111; 111]; [98; 97; 114]] [98; 97] [10; 122])
    as [Hword Hpath].
  - vm_compute. reflexivity.
  - repeat constructor. not_in_list.
  - not_in_list.
  - right. exists [121; 32; 61], 32. repeat split. discriminate.
  - repeat constructor.
  - repeat constructor.
  - reflexivity.
  - reflexivity.
  - split; [exact Hword|]. apply Hpath. right. exists [122]. reflexivity.
Defined.

(** X18 on [cat cat dog] at character 12, one past its end. *)
Lemma cursor_one_past_line_end_witness :
  tocomplete (@cursor ascii_tables "cat cat dog" 0 12)
  = string_of_runes [100; 111; 103]
  /\ leadup (@cursor ascii_tables "cat cat dog" 0 12)
     = List.map string_of_runes [].
Proof.
  apply (@cursor_one_past_line_end ascii_tables _ 0 12
           [] [99; 97; 116; 32; 99; 97; 116; 32] [] [100; 111; 103] []).
  - vm_compute. reflexivity.
  - constructor.
  - not_in_list.
  - right. exists [99; 97; 116; 32; 99; 97; 116], 32.
    repeat split. discriminate.
  - constructor.
  - repeat constructor.
  - now left.
  - reflexivity.
  - reflexivity.
Defined.

(** X11 on the request at line 0, character 3 of the stored [cat cat dog]. *)
Lemma completion_reply_witness :
  let g := @store ascii_tables main a_py "cat cat dog" in
  let file := {| uri := a_py; content := "cat cat dog";
                 words := @getWords ascii_tables (defaultCompletions main)
                            "cat cat dog" |} in
  let s := @cursor ascii_tables "cat cat dog" 0 3 in
  exists items,
    @Handle ascii_tables g (completion_request (IDNum 4) a_py 0 3)
    = Returned g [log (leadups (leadup s) +:+ tocomplete s);
                  Reply (IDNum 4) (CompletionList false items)]
    /\ (forall it,
          it ∈ items
          <-> exists k v,
                (words file !! k = Some v
                 \/ defaultCompletions g !! k = Some v)
                /\ k <> tocomplete s
                /\ it = {| Label := k; Kind := 3; InsertText := k;
                           InsertTextFmt := 1; SortText := sortText v |})
    /\ length items
       = (size (delete (tocomplete s) (words file))
          + size (delete (tocomplete s) (defaultCompletions g)))%nat.
Proof.
  intros g file s.
  apply (@completion_reply ascii_tables g
           (completion_request (IDNum 4) a_py 0 3)
           (completion_params a_py 0 3) a_py file 0 3).
  - reflexivity.
  - reflexivity.
  - reflexivity.
  - apply (@store_lookup ascii_tables).
  - reflexivity.
Defined.

(** X12 on a [didOpen] handled from the globals of [main]. *)
Lemma only_sync_changes_globals_witness :
  (@nil Event) = []
  /\ exists u text,
       names u (didOpen_request a_py "cat")
       /\ @store ascii_tables main a_py "cat" = @store ascii_tables main u text.
Proof.
  apply (@only_sync_changes_globals ascii_tables main
           (@store ascii_tables main a_py "cat")
           (didOpen_request a_py "cat") []).
  - reflexivity.
  - intros H. apply (f_equal (fun g => files g !! a_py)) in H.
    rewrite (@store_lookup ascii_tables) in H. discriminate H.
Defined.

(** X13 on a completion request for a file that is not open. *)
Lemma one_reply_with_request_id_witness :
  Forall (answers (completion_request (IDNum 5) a_py 0 0))
    [log "FILE NOT OPEN"]
  /\ (length (List.filter is_reply [log "FILE NOT OPEN"]) <= 1)%nat.
Proof.
  apply (@one_reply_with_request_id ascii_tables main main
           (completion_request (IDNum 5) a_py 0 0)).
  reflexivity.
Defined.

(** X14 on a [didOpen] for one file followed by a [didChange] for another. *)
Lemma serve_keeps_records_witness :
  defaultCompletions
    (@store ascii_tables (@store ascii_tables main a_py "cat")
       "file:///b.py" "dog")
  = defaultCompletions (@store ascii_tables main a_py "cat")
  /\ forall u,
       is_Some (files (@store ascii_tables main a_py "cat") !! u) ->
       is_Some (files (@store ascii_tables
                         (@store ascii_tables main a_py "cat")
                         "file:///b.py" "dog") !! u).
Proof.
  apply (@serve_keeps_records ascii_tables
           [didChange_request "file:///b.py" ["dog"]]).
  reflexivity.
Defined.

(** X15 on a [didOpen] and a [didChange], for the same file and for two. *)
Lemma writes_compose_witness :
  (a_py = a_py ->
   @serve ascii_tables main
     [didOpen_request a_py "cat"; didChange_request a_py ["dog"]]
   = @serve ascii_tables main [didChange_request a_py ["dog"]])
  /\ ("file:///b.py" <> a_py ->
      @serve ascii_tables main
        [didOpen_request "file:///b.py" "cat"; didChange_request a_py ["dog"]]
      = @serve ascii_tables main
          [didChange_request a_py ["dog"];
           didOpen_request "file:///b.py" "cat"]).
Proof.
  split.
  - apply (@writes_compose ascii_tables main
             (didOpen_request a_py "cat") (didChange_request a_py ["dog"])
             a_py a_py "cat" "dog").
    + exists (open_params a_py "cat"). repeat split. now left.
    + exists (change_params a_py ["dog"]). repeat split. right.
      split; [reflexivity|]. now exists [].
  - apply (@writes_compose ascii_tables main
             (didOpen_request "file:///b.py" "cat")
             (didChange_request a_py ["dog"])
             "file:///b.py" a_py "cat" "dog").
    + exists (open_params "file:///b.py" "cat"). repeat split. now left.
    + exists (change_params a_py ["dog"]). repeat split. right.
      split; [reflexivity|]. now exists [].
Defined.

(** X16 on a [didOpen] whose URI does not decode, and on one with no
    params. *)
Lemma uri_decode_failure_witness :
  @Handle ascii_tables main
    {| Method := "textDocument/didOpen"; req_ID := IDNum 0;
       Params := Some bad_uri_params |}
  = Returned main [log "Failed to unmarshal payload"]
  /\ @Handle ascii_tables main
       {| Method := "textDocument/didOpen"; req_ID := IDNum 0;
          Params := None |}
     = Panicked.
Proof.
  split.
  - apply (proj1 (@uri_decode_failure ascii_tables main
                    {| Method := "textDocument/didOpen"; req_ID := IDNum 0;
                       Params := Some bad_uri_params |}
                    (or_introl eq_refl)) bad_uri_params "bad uri");
      reflexivity.
  - apply (proj2 (@uri_decode_failure ascii_tables main
                    {| Method := "textDocument/didOpen"; req_ID := IDNum 0;
                       Params := None |} (or_introl eq_refl))).
    reflexivity.
Defined.

(** X17 on a completion request whose position does not decode, for a
    file that is not open. *)
Lemma params_decode_failure_witness :
  @Handle ascii_tables main
    {| Method := "textDocument/completion"; req_ID := IDNum 6;
       Params := Some (bad_position_params a_py) |}
  = match files main !! a_py with
    | Some _ =>
      Returned main [ReplyWithError (IDNum 6) CodeParseError
                       ("invalid completion params: " +:+ "bad position")]
    | None => Returned main [log "FILE NOT OPEN"]
    end.
Proof.
  apply (proj2 (proj2 (@params_decode_failure ascii_tables main
                         {| Method := "textDocument/completion";
                            req_ID := IDNum 6;
                            Params := Some (bad_position_params a_py) |}
                         (bad_position_params a_py) a_py "bad position"
                         eq_refl eq_refl)));
    reflexivity.
Defined.

(** ** A delimiter after the text, and the last write of a history *)

Lemma list_ascii_of_string_app (s t : string) :
  list_ascii_of_string (s +:+ t)
  = (list_ascii_of_string s ++ list_ascii_of_string t)%list.
Proof.
  induction s as [|a s IH]; [reflexivity|].
  change (String a s +:+ t) with (String a (s +:+ t)). simpl.
  now rewrite IH.
Qed.

Section Composition.

Context {U : UnicodeTables}.

(** X20. What the missing keyword test at the end of [getWords] amounts
    to.  For an ASCII text and an ASCII delimiter: when the word the text
    ends in has weight 0 in the keyword table, the text tokenizes the same
    with or without the delimiter after it; when that word is a keyword,
    the text without the delimiter counts it once more than the text with
    it. *)
Theorem delimiter_after_text (dc : gmap string Z) (text : string) (d : ascii) :
  ascii_string text = true ->
  byteZ d < 0x80 ->
  isWordRune (byteZ d) = false ->
  (index dc (trailing dc text) = 0 ->
   getWords dc (text +:+ String d EmptyString) = getWords dc text)
  /\ (index dc (trailing dc text) <> 0 ->
      trailing dc text <> EmptyString ->
      getWords dc text
      = count (getWords dc (text +:+ String d EmptyString))
          (trailing dc text)).
Proof.
  intros Htext Hd Hdelim.
  assert (ascii_string (text +:+ String d EmptyString) = true) as Htd.
  { unfold ascii_string in *. rewrite list_ascii_of_string_app, forallb_app.
    rewrite Htext. cbn [forallb list_ascii_of_string andb].
    apply Z.ltb_lt in Hd. now rewrite Hd. }
  unfold getWords, trailing.
  rewrite (range_string_ascii _ Htd), list_ascii_of_string_app, map_app.
  rewrite getWords_loop_app, <- (range_string_ascii _ Htext).
  destruct (getWords_loop dc (range_string text) ∅ EmptyString)
    as [words cw]. cbn [fst snd List.map list_ascii_of_string getWords_loop].
  rewrite Hdelim.
  destruct (String.eqb_spec cw EmptyString) as [->|Hne]; cbn [negb andb].
  - change (String.eqb EmptyString EmptyString) with true. cbn [negb].
    split; [reflexivity|]. intros _ H. contradiction.
  - change (String.eqb EmptyString EmptyString) with true. cbn [negb].
    destruct (Z.eqb_spec (index dc cw) 0) as [Hz|Hnz].
    + split; [reflexivity|]. intros H. contradiction.
    + split; [intros H; contradiction|]. reflexivity.
Qed.

Lemma serve_app (g : Globals) (l1 l2 : list Request) :
  serve g (l1 ++ l2)%list
  = match serve g l1 with
    | Some g1 => serve g1 l2
    | None => None
    end.
Proof.
  revert g. induction l1 as [|req l1 IH]; intros g; simpl; [reflexivity|].
  destruct (Handle g req); auto.
Qed.

Lemma serve_defaultCompletions (reqs : list Request) (g g' : Globals) :
  serve g reqs = Some g' -> defaultCompletions g' = defaultCompletions g.
Proof.
  revert g. induction reqs as [|req reqs IH]; intros g H; simpl in H.
  - now injection H as <-.
  - destruct (Handle g req) as [g1 out| |] eqn:Hh; try discriminate.
    rewrite (IH g1 H).
    destruct (Handle_shape g g1 req out Hh)
      as [_ [->|(_ & u & text & _ & ->)]]; reflexivity.
Qed.

(** X21. What a lookup finds after a history: when a write for a URI is
    followed only by requests that are no [didOpen] or [didChange] naming
    that URI, the store holds for it the text of that write with its
    tokenization, whatever was handled before and after. *)
Theorem last_write_is_stored (g g' : Globals) (pre post : list Request)
    (r : Request) (u text : string) :
  serve g (pre ++ r :: post)%list = Some g' ->
  writes r u text ->
  Forall (fun q => ~ names u q) post ->
  files g' !! u
  = Some {| uri := u; content := text;
            words := getWords (defaultCompletions g) text |}.
Proof.
  intros Hs Hr Hpost. rewrite serve_app in Hs.
  destruct (serve g pre) as [g1|] eqn:Hpre; [|discriminate].
  cbn [serve] in Hs. rewrite (Handle_writes g1 r u text Hr) in Hs.
  rewrite (serve_files post _ g' u Hs Hpost).
  rewrite store_lookup. now rewrite (serve_defaultCompletions pre g g1 Hpre).
Qed.

End Composition.

(** X20 on the text [x for] and a space: [for] is a keyword. *)
Lemma delimiter_after_text_witness :
  (index (defaultCompletions main)
     (@trailing ascii_tables (defaultCompletions main) "x for") = 0 ->
   @getWords ascii_tables (defaultCompletions main)
     ("x for" +:+ String " " EmptyString)
   = @getWords ascii_tables (defaultCompletions main) "x for")
  /\ (index (defaultCompletions main)
        (@trailing ascii_tables (defaultCompletions main) "x for") <> 0 ->
      @trailing ascii_tables (defaultCompletions main) "x for" <> EmptyString ->
      @getWords ascii_tables (defaultCompletions main) "x for"
      = count (@getWords ascii_tables (defaultCompletions main)
                 ("x for" +:+ String " " EmptyString))
          (@trailing ascii_tables (defaultCompletions main) "x for")).
Proof.
  apply (@delimiter_after_text ascii_tables (defaultCompletions main)
           "x for" " ").
  - reflexivity.
  - reflexivity.
  - reflexivity.
Defined.

(** X21 on a history of four requests, two of them writes for [a.py]. *)
Lemma last_write_is_stored_witness :
  files (@store ascii_tables
           (@store ascii_tables (@store ascii_tables main a_py "cat")
              a_py "dog") "file:///b.py" "x") !! a_py
  = Some {| uri := a_py; content := "dog";
            words := @getWords ascii_tables (defaultCompletions main) "dog" |}.
Proof.
  apply (@last_write_is_stored ascii_tables main _
           [didOpen_request a_py "cat"]
           [didOpen_request "file:///b.py" "x";
            completion_request (IDNum 8) a_py 0 0]
           (didChange_request a_py ["dog"]) a_py "dog").
  - reflexivity.
  - exists (change_params a_py ["dog"]). repeat split. right.
    split; [reflexivity|]. now exists [].
  - constructor; [|constructor; [|constructor]].
    + intros [_ H]. discriminate H.
    + intros [[H|H] _]; discriminate H.
Defined.

(** ** How a call of [Handle] can fail to return *)

Section Endings.

Context {U : UnicodeTables}.

(** X22. The process ends only on the method [exit], with code 0; and a
    call panics in exactly two situations: a [didOpen], [didChange] or
    completion request without params, and a [didChange] whose URI and
    changes decode but whose list of changes is empty. *)
Theorem exits_and_panics (g : Globals) (req : Request) :
  (forall code, Handle g req = Exited code <-> Method req = "exit" /\ code = 0)
  /\ (Handle g req = Panicked
      <-> ((Method req = "textDocument/didOpen"
            \/ Method req = "textDocument/didChange"
            \/ Method req = "textDocument/completion")
           /\ Params req = None)
          \/ (Method req = "textDocument/didChange"
              /\ exists raw u,
                   Params req = Some raw
                   /\ textDocument_uri raw = Decoded u
                   /\ contentChanges_text raw = Decoded [])).
Proof.
  split; [intros code|]; split.
  - intros H. switch_arms H; try discriminate.
    + injection H as <-. auto.
    + unfold didChange in H.
      destruct (getURI req) as [[u|err]|], (Params req) as [raw|];
        try discriminate.
      destruct (contentChanges_text raw) as [[|text rest]|err]; discriminate.
    + unfold didOpen in H.
      destruct (getURI req) as [[u|err]|], (Params req) as [raw|];
        try discriminate.
      destruct (textDocument_text raw); discriminate.
    + unfold completion in H.
      destruct (getURI req) as [[u|err]|], (Params req) as [raw|];
        try discriminate.
      destruct (files g !! u); [|discriminate].
      destruct (position raw) as [[Line Character]|err]; discriminate.
  - intros [Hm ->]. unfold Handle. now rewrite Hm.
  - intros H. switch_arms H; try discriminate.
    + unfold didChange, getURI in H.
      destruct (Params req) as [raw|]; [|left; auto].
      right. split; [assumption|].
      destruct (textDocument_uri raw) as [u|err] eqn:Hu; [|discriminate].
      destruct (contentChanges_text raw) as [[|text rest]|err] eqn:Hc;
        try discriminate.
      exists raw, u. auto.
    + unfold didOpen, getURI in H.
      destruct (Params req) as [raw|]; [|left; auto].
      destruct (textDocument_uri raw) as [u|err]; [|discriminate].
      destruct (textDocument_text raw); discriminate.
    + unfold completion, getURI in H.
      destruct (Params req) as [raw|]; [|left; auto].
      destruct (textDocument_uri raw) as [u|err]; [|discriminate].
      destruct (files g !! u); [|discriminate].
      destruct (position raw) as [[Line Character]|err]; discriminate.
  - intros [[[Hm|[Hm|Hm]] Hp]|(Hm & raw & u & Hp & Hu & Hc)].
    + rewrite Handle_didOpen by assumption.
      unfold didOpen, getURI. now rewrite Hp.
    + rewrite Handle_didChange by assumption.
      unfold didChange, getURI. now rewrite Hp.
    + rewrite Handle_completion by assumption.
      unfold completion, getURI. now rewrite Hp.
    + rewrite Handle_didChange by assumption.
      unfold didChange, getURI. now rewrite Hp, Hu, Hc.
Qed.

End Endings.

(** ** The lead-up and the character of the request *)

Section Leadup.

Context {U : UnicodeTables}.

Lemma cursor_loop_leadup (Line C1 C2 : Z) (cs : list rune) (n p : Z)
    (cw t1 t2 : string) (lu : list string) :
  let r1 := cursor_loop Line C1 cs
              {| curline := n; line_pos := p; curword := cw;
                 tocomplete := t1; leadup := lu |} in
  let r2 := cursor_loop Line C2 cs
              {| curline := n; line_pos := p; curword := cw;
                 tocomplete := t2; leadup := lu |} in
  curline r1 = curline r2 /\ line_pos r1 = line_pos r2
  /\ curword r1 = curword r2 /\ leadup r1 = leadup r2.
Proof.
  revert n p cw t1 t2 lu.
  induction cs as [|c cs IH]; intros n p cw t1 t2 lu; cbn zeta.
  - cbn. auto.
  - cbn [cursor_loop curline line_pos curword tocomplete leadup].
    destruct (c =? 10).
    + destruct (n + 1 >? Line); [cbn; auto|]. apply IH.
    + destruct (n =? Line); [|apply IH].
      unfold on_line. cbn [curword leadup].
      destruct (isWordRune c); [apply IH|].
      destruct (c =? 46); apply IH.
Qed.

(** X23. The lead-up does not follow the cursor: [leadup] comes out the
    same for every character of the request, being what the scan of the
    whole requested line leaves; only [tocomplete] is taken at the
    character. *)
Theorem leadup_ignores_character (text : string) (Line C1 C2 : Z) :
  leadup (cursor text Line C1) = leadup (cursor text Line C2).
Proof.
  unfold cursor.
  destruct (cursor_loop_leadup Line C1 C2 (range_string text) 0 0
              EmptyString EmptyString EmptyString []) as (_ & _ & _ & Hl).
  cbn zeta in Hl.
  repeat match goal with
         | |- context [if ?b then _ else _] => destruct b
         end; cbn [leadup]; exact Hl.
Qed.

End Leadup.
